(** * universeaty-revisited: the client of the seat-watch service

    A shallow embedding of the TypeScript client (frontend/src) and of the
    watch life cycle it talks to, with the properties the specification
    states about them.

    Conventions of the embedding.
    - A JavaScript [string] is a Rocq [string]: a sequence of code units
      below 256 (ASCII and Latin-1).
    - A JavaScript [number] that carries a seat count, a list length, a
      scroll offset or an HTTP status is an integer, [Z].
    - A promise is its settlement: [Resolved v] or [Rejected e].
    - [fetch] is the environment: the response (or the failure) arrives
      as an argument.
    - React state is a record; an event handler is a function from the
      state (and the event) to the next state and the effects it emits. *)

From Stdlib Require Import ZArith String Ascii List Bool Lia.
From Stdlib Require Import Sorting.Sorted Sorting.Permutation.
From stdpp Require Import base tactics option list strings pretty gmap.

Set Warnings "-register-all".
Local Open Scope Z_scope.
Local Open Scope string_scope.

(** ** JavaScript strings *)

Module JsString.

(** WhiteSpace and LineTerminator code units below 256: TAB, LF, VT, FF,
    CR, SPACE and NO-BREAK SPACE. Both [String.prototype.trim] and the
    regular expression class [\s] use this set. *)
Definition is_space (c : ascii) : bool :=
  let n := N_of_ascii c in
  ((9 <=? n) && (n <=? 13) || (n =? 32) || (n =? 160))%N.

Fixpoint trimStart (s : string) : string :=
  match s with
  | EmptyString => EmptyString
  | String c s' => if is_space c then trimStart s' else s
  end.

Definition trimEnd (s : string) : string :=
  String.rev (trimStart (String.rev s)).

Definition trim (s : string) : string := trimEnd (trimStart s).

(** [toLowerCase] on Latin-1: A-Z and the capital letters U+00C0-U+00DE
    (U+00D7, the multiplication sign, apart) move up by 32. *)
Definition lower_char (c : ascii) : ascii :=
  let n := N_of_ascii c in
  if ((65 <=? n) && (n <=? 90)
      || (192 <=? n) && (n <=? 222) && negb (n =? 215))%N
  then ascii_of_N (n + 32) else c.

Fixpoint toLowerCase (s : string) : string :=
  match s with
  | EmptyString => EmptyString
  | String c s' => String (lower_char c) (toLowerCase s')
  end.

(** [s.includes(q)]: [q] occurs in [s] as a contiguous substring. *)
Fixpoint includes (s q : string) : bool :=
  String.prefix q s
  || match s with
     | EmptyString => false
     | String _ s' => includes s' q
     end.

(** Truthiness of a string: only the empty string is falsy. *)
Definition truthy (s : string) : bool :=
  match s with EmptyString => false | _ => true end.

(** Some code unit of [s] is not white space. *)
Fixpoint has_nonspace (s : string) : bool :=
  match s with
  | EmptyString => false
  | String c s' => negb (is_space c) || has_nonspace s'
  end.

(** No code unit of [s] is white space. *)
Fixpoint all_nonspace (s : string) : bool :=
  match s with
  | EmptyString => true
  | String c s' => negb (is_space c) && all_nonspace s'
  end.

(** A non-empty run of code units that are not white space: what [\S+]
    matches. *)
Definition word (s : string) : Prop :=
  s <> EmptyString /\ all_nonspace s = true.

End JsString.

(** ** Regular expressions

  The fragment the client uses, with Brzozowski derivatives.
  [test r s] is [RegExp.prototype.test] for a pattern without anchors
  and flags: some substring of [s] matches [r]. *)

Module Regex.

Inductive regex : Type :=
| Void                       (* matches nothing *)
| Eps                        (* the empty string *)
| Chr (c : ascii)            (* a literal character *)
| NonSpace                   (* \S *)
| Seq (r1 r2 : regex)
| Alt (r1 r2 : regex)
| Star (r : regex).

(** [r+] *)
Definition Plus (r : regex) : regex := Seq r (Star r).

Fixpoint nullable (r : regex) : bool :=
  match r with
  | Void => false
  | Eps => true
  | Chr _ => false
  | NonSpace => false
  | Seq r1 r2 => nullable r1 && nullable r2
  | Alt r1 r2 => nullable r1 || nullable r2
  | Star _ => true
  end.

Fixpoint deriv (c : ascii) (r : regex) : regex :=
  match r with
  | Void => Void
  | Eps => Void
  | Chr d => if Ascii.eqb c d then Eps else Void
  | NonSpace => if JsString.is_space c then Void else Eps
  | Seq r1 r2 =>
      if nullable r1
      then Alt (Seq (deriv c r1) r2) (deriv c r2)
      else Seq (deriv c r1) r2
  | Alt r1 r2 => Alt (deriv c r1) (deriv c r2)
  | Star r1 => Seq (deriv c r1) (Star r1)
  end.

(** Some prefix of [s] matches [r]. *)
Fixpoint matches_prefix (r : regex) (s : string) : bool :=
  nullable r
  || match s with
     | EmptyString => false
     | String c s' => matches_prefix (deriv c r) s'
     end.

Fixpoint test (r : regex) (s : string) : bool :=
  matches_prefix r s
  || match s with
     | EmptyString => false
     | String _ s' => test r s'
     end.

(** The strings a pattern matches as a whole. *)
Inductive matches : regex -> string -> Prop :=
| MEps : matches Eps EmptyString
| MChr c : matches (Chr c) (String c EmptyString)
| MNonSpace c :
    JsString.is_space c = false -> matches NonSpace (String c EmptyString)
| MSeq r1 r2 s1 s2 :
    matches r1 s1 -> matches r2 s2 -> matches (Seq r1 r2) (s1 ++ s2)
| MAltL r1 r2 s : matches r1 s -> matches (Alt r1 r2) s
| MAltR r1 r2 s : matches r2 s -> matches (Alt r1 r2) s
| MStarNil r : matches (Star r) EmptyString
| MStarApp r s1 s2 :
    matches r s1 -> matches (Star r) s2 -> matches (Star r) (s1 ++ s2).

(** The literal [/\S+@\S+\.\S+/] of WatchSectionDialog.tsx and App.tsx. *)
Definition email_pattern : regex :=
  Seq (Plus NonSpace)
    (Seq (Chr "@")
       (Seq (Plus NonSpace)
          (Seq (Chr ".") (Plus NonSpace)))).

End Regex.

(** ** JSON values and the JavaScript operations on them *)

Module Json.

(** A value produced by [JSON.parse]. The members of an object are kept in
    insertion order, with distinct keys. Numbers are integers. *)
Inductive json : Type :=
| JNull
| JBool (b : bool)
| JNum (n : Z)
| JStr (s : string)
| JArr (elements : list json)
| JObj (members : list (string * json)).

(** Own property lookup on the members of an object. *)
Fixpoint member (k : string) (ms : list (string * json)) : option json :=
  match ms with
  | [] => None
  | (k', v) :: ms' => if String.eqb k k' then Some v else member k ms'
  end.


(** ToBoolean; [None] is [undefined]. *)
Definition truthy (v : option json) : bool :=
  match v with
  | None => false
  | Some JNull => false
  | Some (JBool b) => b
  | Some (JNum n) => negb (n =? 0)%Z
  | Some (JStr s) => JsString.truthy s
  | Some (JArr _) => true
  | Some (JObj _) => true
  end.

Fixpoint join (sep : string) (l : list string) : string :=
  match l with
  | [] => ""
  | [x] => x
  | x :: l' => x ++ sep ++ join sep l'
  end.

(** ToString of a value whose conversion does not throw (see
    [ToString_throwing]); the client shows this text in its toasts. *)
Fixpoint ToString (v : json) : string :=
  match v with
  | JNull => "null"
  | JBool true => "true"
  | JBool false => "false"
  | JNum n => pretty n
  | JStr s => s
  | JArr l =>
      join ","
        (map (fun e => match e with JNull => "" | _ => ToString e end) l)
  | JObj _ => "[object Object]"
  end.

(** ToString where it can throw: [None] stands for the TypeError of
    ToPrimitive. A parsed object has the [toString] of [Object.prototype]
    unless a member of its own hides it; such a member is no function, and
    neither an own [valueOf] nor the inherited one gives a primitive, so
    the conversion throws. An array is joined, its elements converted in
    turn, [null] to the empty string. *)
Fixpoint ToString_throwing (v : json) : option string :=
  match v with
  | JNull => Some "null"
  | JBool true => Some "true"
  | JBool false => Some "false"
  | JNum n => Some (pretty n)
  | JStr s => Some s
  | JArr l =>
      option_map (join ",")
        ((fix elements (l : list json) : option (list string) :=
            match l with
            | [] => Some []
            | e :: l' =>
                match
                  match e with
                  | JNull => Some ""
                  | _ => ToString_throwing e
                  end
                with
                | Some text =>
                    match elements l' with
                    | Some texts => Some (text :: texts)
                    | None => None
                    end
                | None => None
                end
            end) l)
  | JObj ms =>
      match member "toString" ms with
      | Some _ => None
      | None => Some "[object Object]"
      end
  end.

Definition hex_digit (n : N) : ascii :=
  if (n <? 10)%N then ascii_of_N (48 + n) else ascii_of_N (87 + n).

(** QuoteJSONString, one code unit at a time. *)
Definition quote_char (c : ascii) : string :=
  let n := N_of_ascii c in
  if (n =? 34)%N then "\" ++ String c ""
  else if (n =? 92)%N then "\\"
  else if (n =? 8)%N then "\b"
  else if (n =? 12)%N then "\f"
  else if (n =? 10)%N then "\n"
  else if (n =? 13)%N then "\r"
  else if (n =? 9)%N then "\t"
  else if (n <? 32)%N
       then "\u00" ++ String (hex_digit (n / 16)) (String (hex_digit (n mod 16)) "")
  else String c "".

Fixpoint quote_body (s : string) : string :=
  match s with
  | EmptyString => ""
  | String c s' => quote_char c ++ quote_body s'
  end.

Definition dquote : ascii := ascii_of_N 34.

Definition quote (s : string) : string :=
  String dquote (quote_body s) ++ String dquote "".

(** [JSON.stringify] without replacer and indentation. *)
Fixpoint stringify (v : json) : string :=
  match v with
  | JNull => "null"
  | JBool true => "true"
  | JBool false => "false"
  | JNum n => pretty n
  | JStr s => quote s
  | JArr l => "[" ++ join "," (map stringify l) ++ "]"
  | JObj ms =>
      "{" ++ join "," (map (fun kv => quote (fst kv) ++ ":" ++ stringify (snd kv)) ms)
          ++ "}"
  end.

(** The value of a lower-case hexadecimal digit. *)
Definition unhex (c : ascii) : option N :=
  let n := N_of_ascii c in
  if ((48 <=? n) && (n <=? 57))%N then Some (n - 48)%N
  else if ((97 <=? n) && (n <=? 102))%N then Some (n - 87)%N
  else None.

(** The code unit a two-character escape stands for. *)
Definition unescape (e : ascii) : option ascii :=
  let n := N_of_ascii e in
  if (n =? 34)%N then Some e
  else if (n =? 92)%N then Some e
  else if (n =? 98)%N then Some (ascii_of_N 8)
  else if (n =? 102)%N then Some (ascii_of_N 12)
  else if (n =? 110)%N then Some (ascii_of_N 10)
  else if (n =? 114)%N then Some (ascii_of_N 13)
  else if (n =? 116)%N then Some (ascii_of_N 9)
  else None.

Definition read_cons (c : ascii) (r : option (string * string))
  : option (string * string) :=
  match r with
  | Some (s, rest) => Some (String c s, rest)
  | None => None
  end.

(** Reading a quoted string back, from behind its opening quote: the
    string, and the text behind its closing quote. It reads the escapes
    [quote_char] writes. *)
Fixpoint read_quote_body (s : string) : option (string * string) :=
  match s with
  | EmptyString => None
  | String c rest =>
      if (N_of_ascii c =? 34)%N then Some (EmptyString, rest)
      else if (N_of_ascii c =? 92)%N then
        match rest with
        | String e rest1 =>
            match unescape e with
            | Some d => read_cons d (read_quote_body rest1)
            | None =>
                match rest1 with
                | String z1 (String z2 (String h (String l rest2))) =>
                    if (N_of_ascii e =? 117)%N && (N_of_ascii z1 =? 48)%N
                       && (N_of_ascii z2 =? 48)%N
                    then
                      match unhex h, unhex l with
                      | Some a, Some b =>
                          read_cons (ascii_of_N (16 * a + b))
                            (read_quote_body rest2)
                      | _, _ => None
                      end
                    else None
                | _ => None
                end
            end
        | EmptyString => None
        end
      else read_cons c (read_quote_body rest)
  end.

Definition read_quoted (s : string) : option (string * string) :=
  match s with
  | String c rest => if (N_of_ascii c =? 34)%N then read_quote_body rest else None
  | EmptyString => None
  end.

End Json.
Export Json.

(** ** Errors, promises and fetch *)

Module Js.

(** The [Error] instances the client meets. [ApiError] is the class of
    services/api.ts; [JsError] is a plain [Error]. *)
Inductive js_error : Type :=
| ApiError (message : string) (status : Z) (data : json)
| TypeError (message : string)
| SyntaxError (message : string)
| JsError (message : string).

(** [error.message] *)
Definition error_message (e : js_error) : string :=
  match e with
  | ApiError m _ _ => m
  | TypeError m => m
  | SyntaxError m => m
  | JsError m => m
  end.

(** [error instanceof ApiError] *)
Definition is_ApiError (e : js_error) : bool :=
  match e with ApiError _ _ _ => true | _ => false end.

(** What a [throw] carries: an [Error] instance ([error instanceof Error]
    holds) or some other value. *)
Inductive thrown : Type :=
| ThrowError (e : js_error)
| ThrowOther (v : json).

(** A settled promise. *)
Inductive outcome (A : Type) : Type :=
| Resolved (a : A)
| Rejected (t : thrown).
Arguments Resolved {A} a.
Arguments Rejected {A} t.

#[export] Instance outcome_ret : MRet outcome := fun A a => Resolved a.
#[export] Instance outcome_bind : MBind outcome := fun A B f m =>
  match m with
  | Resolved a => f a
  | Rejected t => Rejected t
  end.

(** [promise.catch(() => v)] *)
Definition catch_with {A} (m : outcome A) (v : A) : A :=
  match m with
  | Resolved a => a
  | Rejected _ => v
  end.

Record Request : Type := {
  url : string;
  method : string;
  headers : list (string * string);
  request_body : option string
}.

(** The body of a response, as [response.json()] sees it: a JSON text, or
    a text that is not JSON together with the message of the [SyntaxError]
    the parser raises on it. *)
Inductive body_text : Type :=
| Json (j : json)
| NotJson (syntax_error_message : string).

Record Response : Type := {
  status : Z;
  statusText : string;
  body : body_text
}.

(** [response.ok]: the status is in the range 200-299. *)
Definition ok (r : Response) : bool :=
  (200 <=? status r)%Z && (status r <=? 299)%Z.

(** [response.json()] *)
Definition response_json (r : Response) : outcome json :=
  match body r with
  | Json j => Resolved j
  | NotJson m => Rejected (ThrowError (SyntaxError m))
  end.

(** The message of the [TypeError] raised by a property read on [null]
    (the text is the engine's). *)
Definition null_read_message (property : string) : string :=
  "Cannot read properties of null (reading '" ++ property ++ "')".

(** [v.property] on a parsed value, for a property that is no built-in
    of strings or arrays: [undefined] ([None]) on a value without it, a
    [TypeError] on [null]. *)
Definition get (v : json) (property : string) : outcome (option json) :=
  match v with
  | JNull => Rejected (ThrowError (TypeError (null_read_message property)))
  | JObj ms => Resolved (member property ms)
  | _ => Resolved None
  end.

(** [errorData.error] *)
Definition get_error (errorData : json) : outcome (option json) :=
  get errorData "error".

(** The message of the TypeError of ToPrimitive (the text is the
    engine's). *)
Definition not_primitive_message : string :=
  "Cannot convert object to primitive value".

(** The message [new Error(message)] and [super(message)] store: ToString
    of the argument, which may throw. *)
Definition Error_message (message : json) : outcome string :=
  match ToString_throwing message with
  | Some text => Resolved text
  | None => Rejected (ThrowError (TypeError not_primitive_message))
  end.

(** [v || fallback] with a string on the right. *)
Definition or_string (v : option json) (fallback : string) : json :=
  match v with
  | Some j => if truthy v then j else JStr fallback
  | None => JStr fallback
  end.

(** A computation that talks to the network: it ends with a value, or
    issues a request and goes on with the settlement of [fetch]. *)
Inductive io (A : Type) : Type :=
| Ret (a : A)
| Fetch (req : Request) (k : outcome Response -> io A).
Arguments Ret {A} a.
Arguments Fetch {A} req k.

(** Running a computation against a network [net]. *)
Fixpoint run {A} (net : Request -> outcome Response) (m : io A) : A :=
  match m with
  | Ret a => a
  | Fetch req k => run net (k (net req))
  end.

(** The requests a computation issues against [net], in order. *)
Fixpoint issued {A} (net : Request -> outcome Response) (m : io A)
  : list Request :=
  match m with
  | Ret _ => []
  | Fetch req k => req :: issued net (k (net req))
  end.

Definition upper_hex_digit (n : N) : ascii :=
  if (n <? 10)%N then ascii_of_N (48 + n) else ascii_of_N (55 + n).

Definition percent (n : N) : string :=
  String "%" (String (upper_hex_digit (n / 16))
                (String (upper_hex_digit (n mod 16)) "")).

(** Characters [encodeURIComponent] leaves alone:
    A-Z a-z 0-9 - _ . ! ~ * ' ( ) *)
Definition uri_unreserved (c : ascii) : bool :=
  let n := N_of_ascii c in
  ((65 <=? n) && (n <=? 90) || (97 <=? n) && (n <=? 122)
   || (48 <=? n) && (n <=? 57)
   || (n =? 45) || (n =? 95) || (n =? 46) || (n =? 33) || (n =? 126)
   || (n =? 42) || (n =? 39) || (n =? 40) || (n =? 41))%N.

(** [encodeURIComponent]: the UTF-8 bytes of the other code units,
    percent-encoded (two bytes from U+0080 on). *)
Fixpoint encodeURIComponent (s : string) : string :=
  match s with
  | EmptyString => ""
  | String c s' =>
      let n := N_of_ascii c in
      (if uri_unreserved c then String c ""
       else if (n <? 128)%N then percent n
       else percent (192 + n / 64) ++ percent (128 + n mod 64))
      ++ encodeURIComponent s'
  end.

(** Every code unit of [s] passes [p]. *)
Fixpoint string_forall (p : ascii -> bool) (s : string) : bool :=
  match s with
  | EmptyString => true
  | String c s' => p c && string_forall p s'
  end.

Definition hex_value (c : ascii) : option N :=
  let n := N_of_ascii c in
  if ((48 <=? n) && (n <=? 57))%N then Some (n - 48)%N
  else if ((65 <=? n) && (n <=? 70))%N then Some (n - 55)%N
  else None.

(** The byte of an escape [%XY] at the head of [s], with what follows. *)
Definition read_percent (s : string) : option (N * string) :=
  match s with
  | String p (String h (String l rest)) =>
      if Ascii.eqb p "%" then
        match hex_value h, hex_value l with
        | Some a, Some b => Some ((16 * a + b)%N, rest)
        | _, _ => None
        end
      else None
  | _ => None
  end.

(** The first code unit an [encodeURIComponent] text stands for, with the
    rest of the text: a character kept as it is, an escaped byte below
    128, or the two escaped bytes of a code unit from U+0080 to U+00FF. *)
Definition read_encoded (s : string) : option (ascii * string) :=
  match s with
  | EmptyString => None
  | String c rest =>
      if uri_unreserved c then Some (c, rest)
      else
        match read_percent s with
        | Some (b1, rest1) =>
            if (b1 <? 128)%N then Some (ascii_of_N b1, rest1)
            else
              match read_percent rest1 with
              | Some (b2, rest2) =>
                  Some (ascii_of_N ((b1 - 192) * 64 + (b2 - 128)), rest2)
              | None => None
              end
        | None => None
        end
  end.


(** What an encoded text is made of: the unreserved characters and the
    percent sign. *)
Definition uri_safe (c : ascii) : bool :=
  uri_unreserved c || Ascii.eqb c "%".

End Js.
Export Js.

(** ** TypeScript interfaces, as data

    An interface is the list of its members with their types; a JSON value
    implements it when it is an object that has every member, at its
    type. *)

Module Ts.

Inductive ts_type : Type := TString | TNumber.

Definition interface : Type := list (string * ts_type).

Definition has_type (t : ts_type) (j : json) : bool :=
  match t, j with
  | TString, JStr _ => true
  | TNumber, JNum _ => true
  | _, _ => false
  end.

Definition implements (i : interface) (j : json) : bool :=
  match j with
  | JObj ms =>
      forallb (fun p => match member (fst p) ms with
                        | Some v => has_type (snd p) v
                        | None => false
                        end) i
  | _ => false
  end.



End Ts.

(** ** services/api.ts, the revision that defines [ApiError]

    This is the text stored after the hooks in
    frontend/src/hooks/useCourseData.tsx (from line 59 on): the interfaces,
    [ApiError], [handleResponse] and the four API functions. The
    components and the hooks import from it. *)

Module Api.

Record Term : Type := { id : string; name : string }.

Record CourseDetailsSection : Type := {
  block_type : string;
  key : string;
  open_seats : Z;
  total_seats : Z;
  section : string
}.

(** [interface CourseDetailsSection], member by member. *)
Definition CourseDetailsSection_interface : Ts.interface :=
  [("block_type", Ts.TString); ("key", Ts.TString);
   ("open_seats", Ts.TNumber); ("total_seats", Ts.TNumber);
   ("section", Ts.TString)].

(** [interface CourseDetails]: block type to sections, in the order of
    [Object.entries]. *)
Definition CourseDetails : Type := list (string * list CourseDetailsSection).

(** [interface WatchRequestPayload] *)
Definition WatchRequestPayload_interface : Ts.interface :=
  [("email", Ts.TString); ("term_id", Ts.TString);
   ("course_code", Ts.TString); ("section_key", Ts.TString)].

Section WithBaseUrl.

(** [import.meta.env.VITE_API_BASE_URL] *)
Variable API_BASE_URL : string.

Definition GET (u : string) : Request :=
  {| url := u; method := "GET"; headers := []; request_body := None |}.

Definition POST_json (u : string) (text : string) : Request :=
  {| url := u; method := "POST";
     headers := [("Content-Type", "application/json")];
     request_body := Some text |}.

Definition handleResponse (response : Response) : outcome json :=
  if negb (ok response) then
    let errorData :=
      catch_with (response_json response)
        (JObj [("error",
                JStr ("HTTP error! status: " ++ pretty (status response)
                        ++ " " ++ statusText response))]) in
    e ← get_error errorData;
    message ← Error_message
                (or_string e
                   ("HTTP error! status: " ++ pretty (status response)));
    Rejected (ThrowError (ApiError message (status response) errorData))
  else response_json response.

Definition getApiHealth : io (outcome json) :=
  Fetch (GET (API_BASE_URL ++ "/health"))
    (fun settled => Ret (response ← settled; handleResponse response)).

Definition getTerms : io (outcome json) :=
  Fetch (GET (API_BASE_URL ++ "/terms"))
    (fun settled => Ret (response ← settled; handleResponse response)).

Definition getCourses (termId : string) : io (outcome json) :=
  Fetch (GET (API_BASE_URL ++ "/terms/" ++ termId ++ "/courses"))
    (fun settled =>
       Ret (response ← settled;
            if (status response =? 404)%Z then Resolved (JArr [])
            else handleResponse response)).

Definition getCourseDetails (termId courseCode : string) : io (outcome json) :=
  let encodedCourseCode := encodeURIComponent courseCode in
  Fetch (GET (API_BASE_URL ++ "/terms/" ++ termId ++ "/courses/"
                ++ encodedCourseCode))
    (fun settled =>
       Ret (response ← settled;
            if (status response =? 404)%Z then Resolved (JObj [])
            else handleResponse response)).

(** The [catch] clause of [addWatchRequest]: an [Error] is thrown again,
    anything else is replaced. *)
Definition rethrow {A} (attempt : outcome A) : outcome A :=
  match attempt with
  | Resolved v => Resolved v
  | Rejected (ThrowError e) => Rejected (ThrowError e)
  | Rejected (ThrowOther _) =>
      Rejected
        (ThrowError
           (JsError "An unknown error occurred during the watch request."))
  end.

Definition addWatchRequest (payload : json) : io (outcome json) :=
  Fetch (POST_json (API_BASE_URL ++ "/watch") (stringify payload))
    (fun settled =>
       Ret (rethrow
              (response ← settled;
               if negb (ok response) then
                 let errorData :=
                   catch_with (response_json response)
                     (JObj [("error",
                             JStr ("Request failed with status "
                                     ++ pretty (status response) ++ " "
                                     ++ statusText response))]) in
                 e ← get_error errorData;
                 message ← Error_message
                             (or_string e
                                ("Request failed with status "
                                   ++ pretty (status response)));
                 Rejected
                   (ThrowError
                      (ApiError message (status response) errorData))
               else response_json response))).

End WithBaseUrl.

End Api.

(** ** services/api.ts, the revision before [ApiError]

    This is frontend/src/services/api.ts, which App.tsx works with. Its
    [CourseDetailsSection] has no [total_seats], and its [addWatchRequest]
    resolves in every case, with [{error}] on a failure. *)

Module Api0.

Record CourseDetailsSection : Type := {
  block_type : string;
  key : string;
  open_seats : Z;
  section : string
}.

(** [interface CourseDetailsSection] of this revision. *)
Definition CourseDetailsSection_interface : Ts.interface :=
  [("block_type", Ts.TString); ("key", Ts.TString);
   ("open_seats", Ts.TNumber); ("section", Ts.TString)].

Definition CourseDetails : Type := list (string * list CourseDetailsSection).

Section WithBaseUrl.

Variable API_BASE_URL : string.

(** The [catch] clause: the failure becomes a value. *)
Definition recover (attempt : outcome json) : outcome json :=
  match attempt with
  | Resolved v => Resolved v
  | Rejected (ThrowError e) =>
      Resolved
        (JObj [("error",
                JStr ("An network error occurred: " ++ error_message e))])
  | Rejected (ThrowOther _) =>
      Resolved
        (JObj [("error",
                JStr "An unknown error occurred during the watch request.")])
  end.

Definition addWatchRequest (payload : json) : io (outcome json) :=
  Fetch (Api.POST_json (API_BASE_URL ++ "/watch") (stringify payload))
    (fun settled =>
       Ret (recover
              (response ← settled;
               if ok response then response_json response
               else
                 let errorData :=
                   catch_with (response_json response)
                     (JObj [("error",
                             JStr ("Request failed with status "
                                     ++ pretty (status response)))]) in
                 e ← get_error errorData;
                 Resolved
                   (JObj [("error",
                           or_string e
                             ("Request failed with status "
                                ++ pretty (status response)))])))).

End WithBaseUrl.

End Api0.

(** ** frontend/src/contexts/CourseSelectionContext.tsx *)

Module Context.

(** The two [useState] cells of [CourseSelectionProvider]. *)
Record CourseSelection : Type := {
  selectedTerm : string;
  selectedCourse : string
}.

Definition initial : CourseSelection :=
  {| selectedTerm := ""; selectedCourse := "" |}.

Definition setSelectedTerm (termId : string) (st : CourseSelection)
  : CourseSelection :=
  {| selectedTerm := termId;
     selectedCourse := "" (* Reset course when term changes *) |}.

Definition setSelectedCourse (courseCode : string) (st : CourseSelection)
  : CourseSelection :=
  {| selectedTerm := selectedTerm st; selectedCourse := courseCode |}.

(** A call of one of the two setters the context hands out. *)
Inductive call : Type :=
| SetSelectedTerm (termId : string)
| SetSelectedCourse (courseCode : string).

Definition apply_call (st : CourseSelection) (c : call) : CourseSelection :=
  match c with
  | SetSelectedTerm t => setSelectedTerm t st
  | SetSelectedCourse c => setSelectedCourse c st
  end.

Definition run_calls (cs : list call) (st : CourseSelection) : CourseSelection :=
  fold_left apply_call cs st.

(** The provider's state with a ghost cell: the term that was selected when
    [setSelectedCourse] was last called. *)
Record traced : Type := {
  current : CourseSelection;
  course_chosen_under : string
}.

Definition traced_initial : traced :=
  {| current := initial; course_chosen_under := "" |}.

Definition traced_call (t : traced) (c : call) : traced :=
  {| current := apply_call (current t) c;
     course_chosen_under :=
       match c with
       | SetSelectedTerm _ => course_chosen_under t
       | SetSelectedCourse _ => selectedTerm (current t)
       end |}.

Definition traced_calls (cs : list call) (t : traced) : traced :=
  fold_left traced_call cs t.

(** The ghost cell agrees with the selected term whenever a course is
    selected. *)
Definition course_under_current_term (t : traced) : Prop :=
  selectedCourse (current t) <> "" ->
  course_chosen_under t = selectedTerm (current t).

End Context.

(** ** frontend/src/hooks/useCourseData.tsx: the [select] step of
    [useTerms], and when the other queries run *)

Module Hooks.

Import Api.

(** Arrays are objects: a reference into a store of arrays of terms. *)
Abbreviation loc := nat.
Abbreviation heap := (list (list Term)).

(** What the query function may resolve with: (a reference to) an array of
    terms, or a value that is not an array. *)
Inductive value : Type :=
| VArray (a : loc)
| VUndefined
| VNull
| VBool (b : bool)
| VNum (n : Z)
| VStr (s : string)
| VObject (members : list (string * json)).

Definition Array_isArray (v : value) : bool :=
  match v with VArray _ => true | _ => false end.

(** A new array with the given elements. *)
Definition alloc (h : heap) (l : list Term) : heap * loc :=
  ((h ++ [l])%list, length h).

Section Sort.

(** [String.prototype.localeCompare], the collation of the host. *)
Variable localeCompare : string -> string -> Z.

(** The comparator of [select]: [(a, b) => a.id.localeCompare(b.id)]. *)
Definition by_id (a b : Term) : Z := localeCompare (id a) (id b).

(** [Array.prototype.sort] is stable; with a consistent comparator every
    stable sort gives the same array. Insertion from the right, an element
    going before the first one it does not exceed, is such a sort. *)
Fixpoint insert_sorted (cmp : Term -> Term -> Z) (x : Term) (l : list Term)
  : list Term :=
  match l with
  | [] => [x]
  | y :: l' =>
      if (cmp x y >? 0)%Z then y :: insert_sorted cmp x l' else x :: y :: l'
  end.

Fixpoint sort (cmp : Term -> Term -> Z) (l : list Term) : list Term :=
  match l with
  | [] => []
  | x :: l' => insert_sorted cmp x (sort cmp l')
  end.

(** [select]: the store after the call and the array returned; [None] when
    the argument is a dangling reference. [[...data]] allocates the copy,
    [sort] works in place on it. *)
Definition select (h : heap) (data : value) : option (heap * loc) :=
  if negb (Array_isArray data) then Some (alloc h [])
  else
    match data with
    | VArray a =>
        l ← h !! a;
        let '(h1, copy) := alloc h l in
        Some (<[copy := sort by_id l]> h1, copy)
    | _ => None
    end.

(** Ascending order of the ids under the collation: [a] does not come
    after [b]. *)
Definition ascending (a b : Term) : Prop :=
  (localeCompare (id a) (id b) <= 0)%Z.

End Sort.

(** [useCourses]: the query function when the query is enabled
    ([enabled: !!termId]), nothing otherwise. *)
Definition useCourses (API_BASE_URL termId : string)
  : option (io (outcome json)) :=
  if JsString.truthy termId then Some (getCourses API_BASE_URL termId)
  else None.

(** [useCourseDetails]: the query function when the query is enabled
    ([enabled: !!termId && !!courseCode]), nothing otherwise. *)
Definition useCourseDetails (API_BASE_URL termId courseCode : string)
  : option (io (outcome json)) :=
  if JsString.truthy termId && JsString.truthy courseCode
  then Some (getCourseDetails API_BASE_URL termId courseCode)
  else None.

(** A collation to run the definitions with: the order of the code
    units. *)
Definition code_unit_compare (a b : string) : Z :=
  match String.compare a b with
  | Lt => (-1)%Z
  | Eq => 0%Z
  | Gt => 1%Z
  end.

End Hooks.

(** ** components/TermSelector.tsx (the second text of unnamed/part_004) *)

Module TermSelector.

Import Api Context.

(** The effect that sets the initial term; [terms] is [None] while the
    query has no data. *)
Definition initial_term_effect (terms : option (list Term))
  (sel : CourseSelection) : CourseSelection :=
  match terms with
  | Some ts =>
      if negb (JsString.truthy (selectedTerm sel))
         && (0 <? Z.of_nat (length ts))%Z
      then
        match ts !! (length ts - 1)%nat with
        | Some t =>
            let mostRecentTermId := id t in
            setSelectedTerm mostRecentTermId sel
        | None => sel
        end
      else sel
  | None => sel
  end.

End TermSelector.

(** ** frontend/src/components/CourseSelector.tsx

    App.tsx has the same constants, [handleCourseScroll] and
    [filteredAndDisplayedCourses], on its own state. *)

Module CourseSelector.

Definition INITIAL_COURSE_COUNT : Z := 30.
Definition LOAD_MORE_COUNT : Z := 30.

(** [l.slice(0, end)] *)
Definition slice0 {A} (l : list A) (end_ : Z) : list A :=
  let len := Z.of_nat (length l) in
  let k := if (end_ <? 0)%Z then Z.max (len + end_) 0 else Z.min end_ len in
  take (Z.to_nat k) l.

Definition filteredAndDisplayedCourses (courses : list string)
  (courseSearchQuery : string) (visibleCourseCount : Z) : list string :=
  let query := JsString.toLowerCase (JsString.trim courseSearchQuery) in
  let sourceCourses := courses in
  if JsString.truthy query then
    List.filter
      (fun course => JsString.includes (JsString.toLowerCase course) query)
      sourceCourses
  else slice0 sourceCourses visibleCourseCount.

(** The fields of the scroll target the handler reads. *)
Record ScrollTarget : Type := {
  scrollTop : Z;
  clientHeight : Z;
  scrollHeight : Z
}.

(** [handleCourseScroll]: the next value of [visibleCourseCount]. *)
Definition handleCourseScroll (courses : list string)
  (courseSearchQuery : string) (target : ScrollTarget)
  (visibleCourseCount : Z) : Z :=
  if JsString.truthy courseSearchQuery then visibleCourseCount
  else
    let threshold := 50%Z in
    let len := Z.of_nat (length courses) in
    if (scrollTop target + clientHeight target >=? scrollHeight target - threshold)%Z
       && (visibleCourseCount <? len)%Z
    then
      let prevCount := visibleCourseCount in
      Z.min (prevCount + LOAD_MORE_COUNT) len
    else visibleCourseCount.

(** [canLoadMoreCourses]: the list ends with the hint to scroll on. *)
Definition canLoadMoreCourses (courses : list string)
  (courseSearchQuery : string) (visibleCourseCount : Z) : bool :=
  let sourceCourses := courses in
  negb (JsString.truthy courseSearchQuery)
  && (visibleCourseCount <? Z.of_nat (length sourceCourses))%Z.

(** The scroll position is within the threshold of the end of the list. *)
Definition near_bottom (target : ScrollTarget) : Prop :=
  (scrollHeight target - 50 <= scrollTop target + clientHeight target)%Z.

(** The local state of the component together with the list it gets from
    [useCourses]. *)
Record State : Type := {
  courses : list string;
  isCoursePopoverOpen : bool;
  visibleCourseCount : Z;
  courseSearchQuery : string
}.

Definition initial : State :=
  {| courses := [];
     isCoursePopoverOpen := false;
     visibleCourseCount := INITIAL_COURSE_COUNT;
     courseSearchQuery := "" |}.

Inductive Event : Type :=
| CoursesFetched (l : list string)       (* useCourses has new data *)
| TermChanged                            (* selectedTerm of the context changed *)
| PopoverOpenChange (open : bool)
| SearchInput (text : string)
| Scroll (target : ScrollTarget).

(** The effect on [selectedTerm, isCoursePopoverOpen]. *)
Definition reset_effect (st : State) : State :=
  {| courses := courses st;
     isCoursePopoverOpen := isCoursePopoverOpen st;
     visibleCourseCount := INITIAL_COURSE_COUNT;
     courseSearchQuery :=
       if negb (isCoursePopoverOpen st) then "" else courseSearchQuery st |}.

Definition step (st : State) (ev : Event) : State :=
  match ev with
  | CoursesFetched l =>
      {| courses := l;
         isCoursePopoverOpen := isCoursePopoverOpen st;
         visibleCourseCount := visibleCourseCount st;
         courseSearchQuery := courseSearchQuery st |}
  | TermChanged => reset_effect st
  | PopoverOpenChange open =>
      if Bool.eqb open (isCoursePopoverOpen st) then st
      else
        reset_effect
          {| courses := courses st;
             isCoursePopoverOpen := open;
             visibleCourseCount := visibleCourseCount st;
             courseSearchQuery := courseSearchQuery st |}
  | SearchInput text =>
      {| courses := courses st;
         isCoursePopoverOpen := isCoursePopoverOpen st;
         visibleCourseCount := visibleCourseCount st;
         courseSearchQuery := text |}
  | Scroll target =>
      {| courses := courses st;
         isCoursePopoverOpen := isCoursePopoverOpen st;
         visibleCourseCount :=
           handleCourseScroll (courses st) (courseSearchQuery st) target
             (visibleCourseCount st);
         courseSearchQuery := courseSearchQuery st |}
  end.

Definition run_events (evs : list Event) (st : State) : State :=
  fold_left step evs st.

(** [handleCourseSelectInternal]: the selection of the context and the
    state of the component after an item of the list was chosen. *)
Definition handleCourseSelectInternal (currentValue : string)
  (sel : Context.CourseSelection) (st : State)
  : Context.CourseSelection * State :=
  let courseCode := currentValue in
  (if negb (String.eqb courseCode (Context.selectedCourse sel))
   then Context.setSelectedCourse courseCode sel
   else sel,
   step st (PopoverOpenChange false)).

(** What the list shows in a state. *)
Definition displayed (st : State) : list string :=
  filteredAndDisplayedCourses (courses st) (courseSearchQuery st)
    (visibleCourseCount st).

(** Whether the hint to scroll on is shown in a state. *)
Definition can_load_more (st : State) : bool :=
  canLoadMoreCourses (courses st) (courseSearchQuery st)
    (visibleCourseCount st).

End CourseSelector.

(** ** Toasts and the effects of a handler *)

Module Ui.

Inductive toast_kind : Type :=
| ToastSuccess | ToastError | ToastWarning | ToastLoading.

(** What a handler does to the outside: a toast, or a request handed to
    [fetch]. *)
Inductive Effect : Type :=
| Toast (kind : toast_kind) (title : string) (description : option string)
| Send (req : Request).

(** The requests among some effects. *)
Definition sent (effs : list Effect) : list Request :=
  omap (fun e => match e with Send req => Some req | Toast _ _ _ => None end)
    effs.

(** [o !== undefined && o !== null] for an optional value. *)
Definition defined {A} (o : option A) : bool :=
  match o with Some _ => true | None => false end.

(** The check both revisions apply to the entered address. *)
Definition valid_email (email : string) : bool :=
  negb (String.eqb (JsString.trim email) "")
  && Regex.test Regex.email_pattern email.

End Ui.
Export Ui.

(** ** components/SectionRow.tsx and components/SectionBlock.tsx

    SectionBlock is the first text of unnamed/part_004; SectionRow is
    frontend/src/components/SectionRow.tsx, and unnamed/part_003 holds an
    earlier SectionRow. *)

Module Sections.

Import Api.

(** What a row shows, and what its watch button does. *)
Record RowView : Type := {
  row_section : CourseDetailsSection;  (* the argument of [onWatchClick] *)
  cell_section : string;
  cell_key : string;
  badge : string;
  watch_disabled : bool;
  tooltip : string
}.

Definition row_tooltip (section : CourseDetailsSection)
  (isWatchMutationPending : bool) : string :=
  if (open_seats section >? 0)%Z then "Section is already open"
  else if isWatchMutationPending then "Submitting watch request..."
  else "Watch this section".

(** components/SectionRow.tsx *)
Definition SectionRow (section : CourseDetailsSection)
  (isWatchDisabled isWatchMutationPending : bool) : RowView :=
  let hasOpenSeats := (open_seats section >? 0)%Z in
  {| row_section := section;
     cell_section := Api.section section;
     cell_key := key section;
     badge := (if hasOpenSeats then "OPEN" else "FULL")
              ++ "(" ++ pretty (open_seats section) ++ "/"
              ++ pretty (total_seats section) ++ ")";
     watch_disabled := isWatchDisabled;
     tooltip := row_tooltip section isWatchMutationPending |}.


(** The [isWatchDisabled] prop SectionBlock computes for a row. *)
Definition isWatchDisabled (section : CourseDetailsSection)
  (isWatchMutationPending : bool) : bool :=
  (open_seats section >? 0)%Z || isWatchMutationPending.

(** The rows of a block; a block without sections has a placeholder row
    and no button. *)
Definition SectionBlock (sections : list CourseDetailsSection)
  (isWatchMutationPending : bool) : list RowView :=
  map (fun section =>
         SectionRow section
           (isWatchDisabled section isWatchMutationPending)
           isWatchMutationPending)
      sections.

End Sections.

(** ** components/CourseDetailsDisplay.tsx with WatchSectionDialog.tsx

    One state machine for the component and the dialog it renders: the
    state of both, the events of the user and of the environment, and the
    handlers. *)

Module Display.

Import Api Context Sections.

(** The result of [useCourseDetails]. *)
Record DetailsQuery : Type := {
  data : option CourseDetails;
  isLoading : bool;
  isFetching : bool;
  isError : bool;
  error_text : string
}.

Record State : Type := {
  selection : CourseSelection;                 (* useCourseSelection *)
  query : DetailsQuery;                        (* useCourseDetails *)
  watchSection : option CourseDetailsSection;
  isWatchDialogOpen : bool;
  (* the mutation of useAddWatchRequest while it waits for fetch *)
  mutation : option (outcome Response -> io (outcome json));
  email : string;                              (* WatchSectionDialog *)
  isValidEmail : bool;                         (* WatchSectionDialog *)
  stored_email : option string  (* localStorage, universeaty_userEmail *)
}.

Definition initial : State :=
  {| selection := Context.initial;
     query := {| data := None; isLoading := false; isFetching := false;
                 isError := false; error_text := "" |};
     watchSection := None;
     isWatchDialogOpen := false;
     mutation := None;
     email := "";
     isValidEmail := false;
     stored_email := None |}.

(** [addWatchMutation.isPending] *)
Definition isPending (st : State) : bool :=
  match mutation st with Some _ => true | None => false end.

Definition with_selection (sel : CourseSelection) (st : State) : State :=
  {| selection := sel; query := query st; watchSection := watchSection st;
     isWatchDialogOpen := isWatchDialogOpen st; mutation := mutation st;
     email := email st; isValidEmail := isValidEmail st;
     stored_email := stored_email st |}.

Definition with_query (q : DetailsQuery) (st : State) : State :=
  {| selection := selection st; query := q; watchSection := watchSection st;
     isWatchDialogOpen := isWatchDialogOpen st; mutation := mutation st;
     email := email st; isValidEmail := isValidEmail st;
     stored_email := stored_email st |}.

Definition setWatchSection (s : option CourseDetailsSection) (st : State)
  : State :=
  {| selection := selection st; query := query st; watchSection := s;
     isWatchDialogOpen := isWatchDialogOpen st; mutation := mutation st;
     email := email st; isValidEmail := isValidEmail st;
     stored_email := stored_email st |}.

Definition with_mutation
  (m : option (outcome Response -> io (outcome json))) (st : State) : State :=
  {| selection := selection st; query := query st;
     watchSection := watchSection st;
     isWatchDialogOpen := isWatchDialogOpen st; mutation := m;
     email := email st; isValidEmail := isValidEmail st;
     stored_email := stored_email st |}.

Definition with_stored (v : option string) (st : State) : State :=
  {| selection := selection st; query := query st;
     watchSection := watchSection st;
     isWatchDialogOpen := isWatchDialogOpen st; mutation := mutation st;
     email := email st; isValidEmail := isValidEmail st;
     stored_email := v |}.

(** [setEmail], followed by the effect that validates the address. *)
Definition setEmail (text : string) (st : State) : State :=
  {| selection := selection st; query := query st;
     watchSection := watchSection st;
     isWatchDialogOpen := isWatchDialogOpen st; mutation := mutation st;
     email := text; isValidEmail := valid_email text;
     stored_email := stored_email st |}.

(** [setIsWatchDialogOpen]; when the dialog opens, its effect fills the
    address in from localStorage. *)
Definition setIsWatchDialogOpen (open : bool) (st : State) : State :=
  let st' :=
    {| selection := selection st; query := query st;
       watchSection := watchSection st;
       isWatchDialogOpen := open; mutation := mutation st;
       email := email st; isValidEmail := isValidEmail st;
       stored_email := stored_email st |} in
  if open && negb (isWatchDialogOpen st) then
    let savedEmail := default "" (stored_email st) in
    setEmail savedEmail st'
  else st'.

(** The dialog is mounted anew: its state starts over ([useState]) and its
    effects run, the one on [isOpen] filling the address in when the dialog
    is open. *)
Definition mountDialog (st : State) : State :=
  let savedEmail := default "" (stored_email st) in
  setEmail (if isWatchDialogOpen st then savedEmail else "") st.

Inductive View : Type :=
| Skeleton
| ErrorCard (message : string)
| NoSectionsFound
| Nothing
| SectionsCard (blocks : list (string * list RowView)).

Definition no_details (d : option CourseDetails) : bool :=
  match d with None => true | Some [] => true | Some _ => false end.

(** The render logic of CourseDetailsDisplay. *)
Definition render (st : State) : View :=
  let selectedCourse := JsString.truthy (selectedCourse (selection st)) in
  let q := query st in
  if selectedCourse
     && (isLoading q || isFetching q && negb (defined (data q)))
  then Skeleton
  else if selectedCourse && isError q then ErrorCard (error_text q)
  else if selectedCourse && negb (isLoading q) && negb (isFetching q)
          && no_details (data q)
  then NoSectionsFound
  else if negb selectedCourse || no_details (data q) then Nothing
  else
    SectionsCard
      (map (fun entry => (fst entry, SectionBlock (snd entry) (isPending st)))
           (default [] (data q))).

Definition handleWatchClick (section : CourseDetailsSection) (st : State)
  : State :=
  setIsWatchDialogOpen true (setWatchSection (Some section) st).

Section WithBaseUrl.

Variable API_BASE_URL : string.

(** The callbacks of [mutate], run on the settlement of the mutation. *)
Definition settled (out : outcome json) (st : State) : State * list Effect :=
  match out with
  | Resolved response =>
      match get response "message" with
      | Resolved m =>
          (setWatchSection None (setIsWatchDialogOpen false st),
           [Toast ToastSuccess
              (ToString (or_string m "Watch request submitted successfully!"))
              None])
      | Rejected _ => (st, [])
      end
  | Rejected err =>
      let errorMessage :=
        match err with
        | ThrowError e =>
            if is_ApiError e then error_message e else error_message e
        | ThrowOther _ => "Failed to submit watch request."
        end in
      (st, [Toast ToastError "Submission Failed" (Some errorMessage)])
  end.

(** [addWatchMutation.mutate(payload, ...)]: the mutation function runs up
    to its fetch. *)
Definition mutate (payload : json) (st : State) : State * list Effect :=
  match Api.addWatchRequest API_BASE_URL payload with
  | Fetch req k => (with_mutation (Some k) st, [Send req])
  | Ret out => settled out st
  end.

(** [handleWatchSubmit] of CourseDetailsDisplay. *)
Definition handleWatchSubmit (email : string) (st : State)
  : State * list Effect :=
  let selectedTerm := selectedTerm (selection st) in
  let selectedCourse := selectedCourse (selection st) in
  match watchSection st with
  | Some watchSection =>
      if negb (JsString.truthy selectedTerm)
         || negb (JsString.truthy selectedCourse)
      then
        (st, [Toast ToastError "Missing Information"
                (Some "Cannot submit watch request. Course or section data is missing.")])
      else
        let payload :=
          JObj [("email", JStr email);
                ("term_id", JStr selectedTerm);
                ("course_code", JStr selectedCourse);
                ("section_key", JStr (key watchSection))] in
        mutate payload st
  | None =>
      (st, [Toast ToastError "Missing Information"
              (Some "Cannot submit watch request. Course or section data is missing.")])
  end.

(** [handleSubmit] of WatchSectionDialog; [section] is [watchSection],
    [onSubmit] is [handleWatchSubmit]. *)
Definition handleSubmit (st : State) : State * list Effect :=
  if negb (isValidEmail st) || isPending st
     || negb (defined (watchSection st))
  then
    (st,
     if negb (isValidEmail st)
     then [Toast ToastError "Invalid Email"
             (Some "Please enter a valid email address.")]
     else [])
  else handleWatchSubmit (email st) st.

Inductive Event : Type :=
| QueryUpdate (q : DetailsQuery)       (* useCourseDetails has a new result:
                                          a first fetch or a refetch *)
| SelectTerm (termId : string)
| SelectCourse (courseCode : string)
| StorageChange (v : option string)    (* localStorage is written elsewhere *)
| ClickWatch (block row : nat)         (* the watch button of a rendered row *)
| DialogOpenChange (open : bool)
| DialogMounted    (* the card is rendered again after a skeleton, an error
                      card or nothing, and the dialog with it *)
| TypeEmail (text : string)
| SubmitForm
| FetchSettled (r : outcome Response).

Definition step (st : State) (ev : Event) : State * list Effect :=
  match ev with
  | QueryUpdate q => (with_query q st, [])
  | SelectTerm t => (with_selection (setSelectedTerm t (selection st)) st, [])
  | SelectCourse c =>
      (with_selection (setSelectedCourse c (selection st)) st, [])
  | StorageChange v => (with_stored v st, [])
  | ClickWatch b r =>
      match render st with
      | SectionsCard blocks =>
          match blocks !! b with
          | Some (_, rows) =>
              match rows !! r with
              | Some row =>
                  (* a disabled button does not fire onClick *)
                  if watch_disabled row then (st, [])
                  else (handleWatchClick (row_section row) st, [])
              | None => (st, [])
              end
          | None => (st, [])
          end
      | _ => (st, [])
      end
  | DialogOpenChange open => (setIsWatchDialogOpen open st, [])
  | DialogMounted => (mountDialog st, [])
  | TypeEmail text => (setEmail text st, [])
  | SubmitForm => handleSubmit st
  | FetchSettled r =>
      match mutation st with
      | Some k =>
          match k r with
          | Ret out => settled out (with_mutation None st)
          | Fetch req k' => (with_mutation (Some k') st, [Send req])
          end
      | None => (st, [])
      end
  end.

(** The state after some events and everything emitted on the way. *)
Fixpoint run_events (evs : list Event) (st : State) : State * list Effect :=
  match evs with
  | [] => (st, [])
  | ev :: evs' =>
      let '(st1, effs1) := step st ev in
      let '(st2, effs2) := run_events evs' st1 in
      (st2, (effs1 ++ effs2)%list)
  end.

(** The state the component is in after some events. *)
Definition state_after (evs : list Event) : State :=
  fst (run_events evs initial).

End WithBaseUrl.

Definition is_settlement (ev : Event) : bool :=
  match ev with FetchSettled _ => true | _ => false end.

(** How many times [fetch] settled among some events. *)
Definition settlements (evs : list Event) : nat :=
  length (List.filter is_settlement evs).

(** The requests that wait for their answer in a state. *)
Definition waiting (st : State) : nat :=
  if isPending st then 1%nat else 0%nat.

(** What holds of the states the component reaches: the validity flag is
    that of the address; the section of the dialog was full when its row
    was clicked; a waiting mutation ends at the settlement of its fetch. *)
Definition consistent (st : State) : Prop :=
  isValidEmail st = valid_email (email st)
  /\ (forall s, watchSection st = Some s -> (open_seats s <= 0)%Z)
  /\ (forall k, mutation st = Some k -> forall r, exists out, k r = Ret out).

End Display.

(** ** App.tsx, the revision with the whole client in one component

    This is the first text of frontend/src/App.tsx. It works with the
    services/api.ts of module [Api0]. Only the state and the handlers of the
    watch feature are modelled; terms, courses and details arrive through
    events. *)

Module App.

Import Api0.

Record State : Type := {
  selectedTerm : string;
  selectedCourse : string;
  courseDetails : option CourseDetails;
  watchSection : option CourseDetailsSection;
  watchEmail : string;
  isWatchDialogOpen : bool;
  isSubmittingWatch : bool;
  isLoadingDetails : bool;
  (* the promise of handleWatchSubmit while it waits for fetch *)
  request : option (outcome Response -> io (outcome json))
}.

Definition initial : State :=
  {| selectedTerm := ""; selectedCourse := ""; courseDetails := None;
     watchSection := None; watchEmail := ""; isWatchDialogOpen := false;
     isSubmittingWatch := false; isLoadingDetails := false;
     request := None |}.

Definition with_selection (term course : string)
  (details : option CourseDetails) (loading : bool) (st : State) : State :=
  {| selectedTerm := term; selectedCourse := course;
     courseDetails := details;
     watchSection := watchSection st; watchEmail := watchEmail st;
     isWatchDialogOpen := isWatchDialogOpen st;
     isSubmittingWatch := isSubmittingWatch st;
     isLoadingDetails := loading; request := request st |}.

Definition with_watch (s : option CourseDetailsSection) (open : bool)
  (st : State) : State :=
  {| selectedTerm := selectedTerm st; selectedCourse := selectedCourse st;
     courseDetails := courseDetails st;
     watchSection := s; watchEmail := watchEmail st;
     isWatchDialogOpen := open;
     isSubmittingWatch := isSubmittingWatch st;
     isLoadingDetails := isLoadingDetails st; request := request st |}.

Definition setWatchEmail (text : string) (st : State) : State :=
  {| selectedTerm := selectedTerm st; selectedCourse := selectedCourse st;
     courseDetails := courseDetails st;
     watchSection := watchSection st; watchEmail := text;
     isWatchDialogOpen := isWatchDialogOpen st;
     isSubmittingWatch := isSubmittingWatch st;
     isLoadingDetails := isLoadingDetails st; request := request st |}.

Definition with_submitting (b : bool)
  (k : option (outcome Response -> io (outcome json))) (st : State) : State :=
  {| selectedTerm := selectedTerm st; selectedCourse := selectedCourse st;
     courseDetails := courseDetails st;
     watchSection := watchSection st; watchEmail := watchEmail st;
     isWatchDialogOpen := isWatchDialogOpen st;
     isSubmittingWatch := b;
     isLoadingDetails := isLoadingDetails st; request := k |}.

(** A row of [renderCourseDetails]. *)
Record RowView : Type := {
  row_section : CourseDetailsSection;  (* the argument of [handleWatchClick] *)
  cell_section : string;
  cell_key : string;
  badge : string;
  watch_disabled : bool;
  tooltip : string
}.

(** The [disabled] attribute of the watch button of a row. *)
Definition watch_button_disabled (section : CourseDetailsSection)
  (isSubmittingWatch : bool) : bool :=
  (open_seats section >? 0)%Z     (* Disable if open *)
  || isSubmittingWatch.           (* Disable while any watch is submitting *)

Definition render_row (isSubmittingWatch : bool)
  (section : CourseDetailsSection) : RowView :=
  {| row_section := section;
     cell_section := Api0.section section;
     cell_key := key section;
     badge := if (open_seats section >? 0)%Z
              then pretty (open_seats section) ++ " Open" else "Full";
     watch_disabled := watch_button_disabled section isSubmittingWatch;
     tooltip := if (open_seats section >? 0)%Z
                then "Section is already open" else "Watch this section" |}.

Inductive View : Type :=
| Skeleton
| NoSectionsFound
| Nothing
| SectionsCard (blocks : list (string * list RowView)).

Definition no_details (d : option CourseDetails) : bool :=
  match d with None => true | Some [] => true | Some _ => false end.

Definition renderCourseDetails (st : State) : View :=
  if isLoadingDetails st then Skeleton
  else if JsString.truthy (selectedCourse st)
          && negb (isLoadingDetails st) && no_details (courseDetails st)
  then NoSectionsFound
  else if no_details (courseDetails st) then Nothing
  else
    SectionsCard
      (map (fun entry =>
              (fst entry, map (render_row (isSubmittingWatch st)) (snd entry)))
           (default [] (courseDetails st))).

(** [fetchedTerms.find((t) => t.name.toLowerCase().includes(word))] *)
Definition find_by_name (word : string) (fetchedTerms : list Api.Term)
  : option Api.Term :=
  List.find
    (fun t => JsString.includes (JsString.toLowerCase (Api.name t)) word)
    fetchedTerms.

(** [found?.id || rest] *)
Definition id_or (found : option Api.Term) (rest : string) : string :=
  match found with
  | Some t => if JsString.truthy (Api.id t) then Api.id t else rest
  | None => rest
  end.

(** The term [fetchTerms] selects once the terms are there (prefer Winter >
    Fall > First); [None] when no term was fetched, where it selects
    nothing and shows the toast No terms found. *)
Definition defaultTermId (fetchedTerms : list Api.Term) : option string :=
  if (Z.of_nat (length fetchedTerms) >? 0)%Z then
    let winter := find_by_name "winter" fetchedTerms in
    let fall := find_by_name "fall" fetchedTerms in
    Some (id_or winter (id_or fall (default "" (Api.id <$> fetchedTerms !! 0%nat))))
  else None.

(** The [disabled] attribute of the submit button of the dialog. *)
Definition submit_button_disabled (st : State) : bool :=
  isSubmittingWatch st
  || negb (JsString.truthy (JsString.trim (watchEmail st)))
  || negb (Regex.test Regex.email_pattern (watchEmail st)).

Definition handleWatchClick (section : CourseDetailsSection) (st : State)
  : State :=
  with_watch (Some section) true st.

(** The executor of the promise in [handleWatchSubmit], from the
    settlement of [addWatchRequest] on. *)
Definition promise_body (out : outcome json) : outcome json :=
  match
    (response ← out;
     m ← get response "message";
     e ← get response "error";
     if truthy m && negb (truthy e) then Resolved (inl response)
     else
       text ← Error_message
                (or_string e
                   "An unknown error occurred while adding the watch request.");
       Resolved (inr text))
  with
  | Resolved (inl response) => Resolved response
  | Resolved (inr text) => Rejected (ThrowError (JsError text))
  | Rejected t =>
      let message :=
        match t with
        | ThrowError e => error_message e
        | ThrowOther _ => "An unexpected network or server error occurred."
        end in
      Rejected (ThrowError (JsError message))
  end.

(** The callbacks of [toast.promise]. *)
Definition promise_settled (out : outcome json) (st : State)
  : State * list Effect :=
  match promise_body out with
  | Resolved response =>
      let st1 := with_watch (watchSection st) false st in
      let st2 := setWatchEmail "" st1 in
      let st3 := with_submitting false None st2 in
      let message :=
        match response with
        | JObj ms => member "message" ms
        | _ => None
        end in
      (st3,
       [Toast ToastSuccess
          (ToString (or_string message "Watch request submitted successfully!"))
          None])
  | Rejected t =>
      let message :=
        match t with
        | ThrowError e => error_message e
        | ThrowOther _ => ""
        end in
      (with_submitting false None st,
       [Toast ToastError
          (if JsString.truthy message then message
           else "Failed to submit watch request.")
          None])
  end.

Section WithBaseUrl.

Variable API_BASE_URL : string.

Definition handleWatchSubmit (st : State) : State * list Effect :=
  (* Basic input validation *)
  if negb (JsString.truthy (watchEmail st))
     || negb (JsString.truthy (JsString.trim (watchEmail st)))
  then
    (st, [Toast ToastWarning "Email Required"
            (Some "Please enter your email address.")])
  else if negb (Regex.test Regex.email_pattern (watchEmail st)) then
    (st, [Toast ToastError "Invalid Email"
            (Some "Please enter a valid email address.")])
  else
    (* Ensure necessary context exists *)
    match watchSection st with
    | Some watchSection =>
        if negb (JsString.truthy (selectedTerm st))
           || negb (JsString.truthy (selectedCourse st))
        then
          (st, [Toast ToastError "Missing Information"
                  (Some "Cannot submit watch request. Course or section data is missing.")])
        else
          let payload :=
            JObj [("email", JStr (watchEmail st));
                  ("term_id", JStr (selectedTerm st));
                  ("course_code", JStr (selectedCourse st));
                  ("section_key", JStr (key watchSection))] in
          match Api0.addWatchRequest API_BASE_URL payload with
          | Fetch req k =>
              (with_submitting true (Some k) st,
               [Send req;
                Toast ToastLoading "Submitting watch request..." None])
          | Ret out =>
              let '(st', effs) :=
                promise_settled out (with_submitting true None st) in
              (st', Toast ToastLoading "Submitting watch request..." None
                    :: effs)
          end
    | None =>
        (st, [Toast ToastError "Missing Information"
                (Some "Cannot submit watch request. Course or section data is missing.")])
    end.

Inductive Event : Type :=
| TermChange (termId : string)
| CourseSelect (courseCode : string)
| DetailsFetched (details : option CourseDetails)
| ClickWatch (block row : nat)
| DialogOpenChange (open : bool)
| TypeEmail (text : string)
| ClickSubmit
| FetchSettled (r : outcome Response).

Definition step (st : State) (ev : Event) : State * list Effect :=
  match ev with
  | TermChange t =>
      if String.eqb t (selectedTerm st) then (st, [])
      else (with_selection t "" None false st, [])
  | CourseSelect c =>
      if String.eqb c (selectedCourse st) then (st, [])
      else
        (with_selection (selectedTerm st) c None
           (JsString.truthy (selectedTerm st) && JsString.truthy c) st, [])
  | DetailsFetched d =>
      (with_selection (selectedTerm st) (selectedCourse st) d false st, [])
  | ClickWatch b r =>
      match renderCourseDetails st with
      | SectionsCard blocks =>
          match blocks !! b with
          | Some (_, rows) =>
              match rows !! r with
              | Some row =>
                  if watch_disabled row then (st, [])
                  else (handleWatchClick (row_section row) st, [])
              | None => (st, [])
              end
          | None => (st, [])
          end
      | _ => (st, [])
      end
  | DialogOpenChange open => (with_watch (watchSection st) open st, [])
  | TypeEmail text => (setWatchEmail text st, [])
  | ClickSubmit =>
      if submit_button_disabled st then (st, []) else handleWatchSubmit st
  | FetchSettled r =>
      match request st with
      | Some k =>
          match k r with
          | Ret out => promise_settled out st
          | Fetch req k' =>
              (with_submitting (isSubmittingWatch st) (Some k') st, [Send req])
          end
      | None => (st, [])
      end
  end.

Fixpoint run_events (evs : list Event) (st : State) : State * list Effect :=
  match evs with
  | [] => (st, [])
  | ev :: evs' =>
      let '(st1, effs1) := step st ev in
      let '(st2, effs2) := run_events evs' st1 in
      (st2, (effs1 ++ effs2)%list)
  end.

Definition state_after (evs : list Event) : State :=
  fst (run_events evs initial).

End WithBaseUrl.

Definition is_settlement (ev : Event) : bool :=
  match ev with FetchSettled _ => true | _ => false end.

(** How many times [fetch] settled among some events. *)
Definition settlements (evs : list Event) : nat :=
  length (List.filter is_settlement evs).

(** The requests that wait for their answer in a state. *)
Definition waiting (st : State) : nat :=
  if defined (request st) then 1%nat else 0%nat.

(** What holds of the states the component reaches: the section of the
    dialog was full when its row was clicked; a waiting request ends at the
    settlement of its fetch. *)
Definition consistent (st : State) : Prop :=
  (forall s, watchSection st = Some s -> (open_seats s <= 0)%Z)
  /\ (forall k, request st = Some k -> forall r, exists out, k r = Ret out).

(** [isSubmittingWatch] is set while the promise waits, and only then. *)
Definition submitting_while_waiting (st : State) : Prop :=
  isSubmittingWatch st = defined (request st).

End App.

(** ** The watch registry and the dispatcher

    The backend (watch registry, snapshot store, diff and notification
    dispatcher, notifier, provider health sentinel) is not among the
    sources; this module is written from sections 3, 4.1 and 4.4-4.6 of
    the specification. *)

Module WatchRegistry.

(** Modelled from the spec: the status of a watch request, one of
    [active], [notified] and [deactivated] (section 3; the registry is
    missing from the sources). *)
Inductive status : Type := active | notified | deactivated.

#[export] Instance status_eq_dec : EqDecision status.
Proof. solve_decision. Defined.

(** Modelled from the spec: a row of the watch registry (section 3),
    without its time stamps. *)
Record WatchRequest : Type := {
  email : string;
  term_id : string;
  course_code : string;
  section_key : string;
  watch_status : status
}.

Definition with_status (s : status) (w : WatchRequest) : WatchRequest :=
  {| email := email w; term_id := term_id w; course_code := course_code w;
     section_key := section_key w; watch_status := s |}.

(** Modelled from the spec: a section of a fresh listing of a course, as
    the provider returns it (sections 3 and 6). *)
Record Section : Type := {
  key : string;
  open_seats : Z;
  total_seats : Z
}.

(** Modelled from the spec: one notification job per triggered watch
    (section 4.4); a job is the index of the row of its watch. *)
Definition job : Type := nat.

(** Modelled from the spec: the mutable state of the engine, that is the
    watch registry (rows are retained, never deleted), the snapshot store
    (section key to the seat counts last seen) and the flag of the
    provider health sentinel (sections 3, 4.1 and 5). *)
Record Engine : Type := {
  registry : list WatchRequest;
  snapshots : gmap string (Z * Z);
  providerBlocked : bool
}.

Definition initial : Engine :=
  {| registry := []; snapshots := ∅; providerBlocked := false |}.

Definition same_watch (a b : WatchRequest) : bool :=
  String.eqb (email a) (email b) && String.eqb (term_id a) (term_id b)
  && String.eqb (course_code a) (course_code b)
  && String.eqb (section_key a) (section_key b).

Definition is_active (w : WatchRequest) : bool :=
  bool_decide (watch_status w = active).

(** Modelled from the spec: the submission of a watch by the
    request-handling boundary (section 3): a duplicate of an active watch
    is rejected, otherwise a new [active] row is created. *)
Definition submit (w : WatchRequest) (e : Engine) : Engine :=
  if existsb (fun w' => is_active w' && same_watch w w') (registry e) then e
  else
    {| registry := (registry e ++ [with_status active w])%list;
       snapshots := snapshots e;
       providerBlocked := providerBlocked e |}.

(** Modelled from the spec: the opening transition of section 4.4, prior
    seats at most 0, or no prior entry, and new seats above 0. *)
Definition opening (prior : option (Z * Z)) (s : Section) : bool :=
  match prior with
  | Some (o, _) => (o <=? 0)%Z && (0 <? open_seats s)%Z
  | None => (0 <? open_seats s)%Z
  end.

Definition find_section (k : string) (fresh : list Section) : option Section :=
  List.find (fun s => String.eqb (key s) k) fresh.

(** Modelled from the spec: what the dispatcher decides for one row, given
    the fresh listing of a course (section 4.4). Only an [active] watch of
    that course moves: to [deactivated] when its section is gone from the
    listing, to [notified] on an opening transition. The status of the
    watch is the source of truth. *)
Definition decide_watch (prior : gmap string (Z * Z)) (term course : string)
  (fresh : list Section) (w : WatchRequest) : status :=
  if is_active w && String.eqb (term_id w) term
     && String.eqb (course_code w) course
  then
    match find_section (section_key w) fresh with
    | None => deactivated
    | Some s =>
        if opening (prior !! section_key w) s then notified else active
    end
  else watch_status w.

Definition record_listing (fresh : list Section) (m : gmap string (Z * Z))
  : gmap string (Z * Z) :=
  foldr (fun s acc => <[key s := (open_seats s, total_seats s)]> acc) m fresh.

(** The jobs of a pass: the rows that went from [active] to [notified]. *)
Fixpoint jobs_from (i : nat) (before after : list WatchRequest) : list job :=
  match before, after with
  | b :: before', a :: after' =>
      (if is_active b && bool_decide (watch_status a = notified)
       then [i] else [])
      ++ jobs_from (S i) before' after'
  | _, _ => []
  end%list.

(** Modelled from the spec: a pass of the diff and notification dispatcher
    over the fresh listing of one course (section 4.4): every row is
    decided, the snapshot store takes the listing, and one job is emitted
    per watch that became [notified]. *)
Definition dispatch (term course : string) (fresh : list Section) (e : Engine)
  : Engine * list job :=
  let rows :=
    map (fun w => with_status
                    (decide_watch (snapshots e) term course fresh w) w)
        (registry e) in
  ({| registry := rows;
      snapshots := record_listing fresh (snapshots e);
      providerBlocked := providerBlocked e |},
   jobs_from 0 (registry e) rows).

(** Modelled from the spec: what happens to the engine, that is a
    submission, the complete listing of a course, a fetch that timed out
    or was malformed, the login wall of the provider and its end, and a
    delivery the notifier gave up on (sections 4.1 to 4.5). *)
Inductive Event : Type :=
| Submit (w : WatchRequest)
| Listing (term course : string) (fresh : list Section)
| FetchFailed (term course : string)
| AuthRequired
| ProbeSucceeded
| DeliveryFailed (j : job).

Definition set_blocked (b : bool) (e : Engine) : Engine :=
  {| registry := registry e; snapshots := snapshots e; providerBlocked := b |}.

(** Modelled from the spec: one step of the engine. While the provider is
    blocked a listing is not evaluated (section 4.1); a failed fetch
    changes nothing (section 4.3); after a failed delivery the watch stays
    [notified] (section 4.5). *)
Definition step (e : Engine) (ev : Event) : Engine * list job :=
  match ev with
  | Submit w => (submit w e, [])
  | Listing term course fresh =>
      if providerBlocked e then (e, []) else dispatch term course fresh e
  | FetchFailed _ _ => (e, [])
  | AuthRequired => (set_blocked true e, [])
  | ProbeSucceeded => (set_blocked false e, [])
  | DeliveryFailed _ => (e, [])
  end.

Definition run_events (evs : list Event) (e : Engine) : Engine :=
  fold_left (fun e ev => fst (step e ev)) evs e.

(** Modelled from the spec: the transitions of the state machine of
    section 4.6, from [active] to [notified] or to [deactivated]. *)
Definition transition (s s' : status) : Prop :=
  s = active /\ (s' = notified \/ s' = deactivated).

End WatchRegistry.

(** * Properties *)

(** ** The embedding on concrete inputs *)

Example email_pattern_accepts :
  Regex.test Regex.email_pattern "student@mcmaster.ca" = true
  /\ Regex.test Regex.email_pattern "  see student@mcmaster.ca  " = true
  /\ Regex.test Regex.email_pattern "a@b.." = true.
Proof. repeat split. Qed.

Example email_pattern_refuses :
  Regex.test Regex.email_pattern "student@mcmaster" = false
  /\ Regex.test Regex.email_pattern "student @mcmaster.ca" = false
  /\ Regex.test Regex.email_pattern "@mcmaster.ca" = false
  /\ Regex.test Regex.email_pattern "student@.ca" = false
  /\ Regex.test Regex.email_pattern "" = false.
Proof. repeat split. Qed.

Example trim_strips_both_ends :
  JsString.trim "  COMPSCI 1JC3  " = "COMPSCI 1JC3" /\ JsString.trim "   " = "".
Proof. split; reflexivity. Qed.

Example valid_email_checks :
  valid_email "student@mcmaster.ca" = true
  /\ valid_email "   " = false
  /\ valid_email "student" = false.
Proof. repeat split. Qed.

Example stringify_escapes :
  stringify (JObj [("n", JNum 5); ("l", JArr [JNull; JBool true]);
                   ("s", JStr "a\b")])
  = "{" ++ quote "n" ++ ":5," ++ quote "l" ++ ":[null,true],"
      ++ quote "s" ++ ":" ++ String dquote "a\\b" ++ String dquote "}".
Proof. reflexivity. Qed.

Example encodeURIComponent_course :
  encodeURIComponent "COMPSCI 1JC3/A&B" = "COMPSCI%201JC3%2FA%26B".
Proof. reflexivity. Qed.

Example filtered_courses :
  CourseSelector.filteredAndDisplayedCourses
    ["COMPSCI 1JC3"; "MATH 1ZA3"; "compsci 2C03"] " Sci " 1
  = ["COMPSCI 1JC3"; "compsci 2C03"]
  /\ CourseSelector.filteredAndDisplayedCourses
       ["COMPSCI 1JC3"; "MATH 1ZA3"; "compsci 2C03"] "  " 2
     = ["COMPSCI 1JC3"; "MATH 1ZA3"].
Proof. split; reflexivity. Qed.

Example scroll_loads_more :
  let near_bottom :=
    {| CourseSelector.scrollTop := 960; CourseSelector.clientHeight := 300;
       CourseSelector.scrollHeight := 1300 |} in
  CourseSelector.handleCourseScroll (repeat "COMPSCI 1JC3" 45) ""
    near_bottom 30 = 45%Z
  /\ CourseSelector.handleCourseScroll (repeat "COMPSCI 1JC3" 45) "comp"
       near_bottom 30 = 30%Z.
Proof. split; reflexivity. Qed.

Example not_found_is_empty :
  let missing :=
    {| status := 404; statusText := "NOT FOUND"; body := NotJson "" |} in
  run (fun _ => Resolved missing) (Api.getCourses "https://api" "3202510")
  = Resolved (JArr [])
  /\ run (fun _ => Resolved missing)
       (Api.getCourseDetails "https://api" "3202510" "COMPSCI 1JC3")
     = Resolved (JObj [])
  /\ issued (fun _ => Resolved missing)
       (Api.getCourseDetails "https://api" "3202510" "COMPSCI 1JC3")
     = [Api.GET "https://api/terms/3202510/courses/COMPSCI%201JC3"].
Proof. repeat split. Qed.

Example bad_gateway_page :
  let page :=
    {| status := 502; statusText := "Bad Gateway";
       body := NotJson "Unexpected token" |} in
  Api.handleResponse page
  = Rejected
      (ThrowError
         (ApiError "HTTP error! status: 502 Bad Gateway" 502
            (JObj [("error", JStr "HTTP error! status: 502 Bad Gateway")]))).
Proof. reflexivity. Qed.

(** ** Strings *)

Section StringFacts.

Lemma append_cons c (s t : string) : String c s ++ t = String c (s ++ t).
Proof. reflexivity. Qed.

Lemma append_nil_l (s : string) : "" ++ s = s.
Proof. reflexivity. Qed.

Lemma append_nil_r (s : string) : s ++ "" = s.
Proof.
  induction s as [| c s IH]; [reflexivity |].
  rewrite append_cons, IH. reflexivity.
Qed.

Lemma append_eq_nil (s t : string) : s ++ t = "" -> s = "" /\ t = "".
Proof.
  destruct s as [| c s]; [intros H; split; [reflexivity | exact H] |].
  rewrite append_cons. discriminate.
Qed.

(** How a concatenation can start with a given character. *)
Lemma append_eq_cons (s t : string) c u :
  s ++ t = String c u ->
  (s = "" /\ t = String c u) \/ exists s', s = String c s' /\ u = s' ++ t.
Proof.
  destruct s as [| d s]; [intros H; left; split; [reflexivity | exact H] |].
  rewrite append_cons. intros [= -> <-]. right. eauto.
Qed.

Lemma append_assoc (a b c : string) : (a ++ b) ++ c = a ++ (b ++ c).
Proof.
  induction a as [| x a IH]; [reflexivity |].
  change (String x ((a ++ b) ++ c) = String x (a ++ b ++ c)).
  f_equal. exact IH.
Qed.

Lemma append_inj_l (p a b : string) : p ++ a = p ++ b -> a = b.
Proof.
  induction p as [| c p IH]; [intros H; exact H |].
  rewrite !append_cons. intros [= H]. apply IH, H.
Qed.

Lemma string_forall_app p (s t : string) :
  string_forall p (s ++ t) = string_forall p s && string_forall p t.
Proof.
  induction s as [| c s IH]; [reflexivity |].
  rewrite append_cons. simpl. rewrite IH. apply andb_assoc.
Qed.







End StringFacts.

(** ** Course selection (contexts/CourseSelectionContext.tsx) *)

Section SelectionFacts.

Import Context.

Lemma traced_call_keeps t c :
  course_under_current_term t -> course_under_current_term (traced_call t c).
Proof.
  unfold course_under_current_term.
  destruct c as [termId | courseCode]; simpl; intros Hinv Hne.
  - congruence.
  - reflexivity.
Qed.

Lemma traced_calls_keep cs : forall t,
  course_under_current_term t ->
  course_under_current_term (traced_calls cs t).
Proof.
  induction cs as [| c cs IH]; intros t Hinv; simpl.
  - exact Hinv.
  - apply IH, traced_call_keeps, Hinv.
Qed.

Lemma traced_calls_current cs : forall t,
  current (traced_calls cs t) = run_calls cs (current t).
Proof.
  induction cs as [| c cs IH]; intros t; simpl.
  - reflexivity.
  - rewrite IH. reflexivity.
Qed.

(** C9. [setSelectedTerm t] sets the term to [t] and the course to the empty
    string; [setSelectedCourse c] sets the course to [c] and leaves the term
    alone; so after any sequence of calls a non-empty selected course was
    chosen under the term that is selected now. *)
Theorem C9_selection_setters :
  (forall t st,
      selectedTerm (setSelectedTerm t st) = t
      /\ selectedCourse (setSelectedTerm t st) = "")
  /\ (forall c st,
         selectedCourse (setSelectedCourse c st) = c
         /\ selectedTerm (setSelectedCourse c st) = selectedTerm st)
  /\ (forall cs,
         current (traced_calls cs traced_initial) = run_calls cs initial
         /\ (selectedCourse (run_calls cs initial) <> "" ->
             course_chosen_under (traced_calls cs traced_initial)
             = selectedTerm (run_calls cs initial))).
Proof.
  split; [| split].
  - intros t st. split; reflexivity.
  - intros c st. split; reflexivity.
  - intros cs.
    pose proof (traced_calls_current cs traced_initial) as Hcur.
    simpl in Hcur. split; [exact Hcur |].
    rewrite <- Hcur.
    apply traced_calls_keep. intros Hne. exfalso. apply Hne. reflexivity.
Qed.

End SelectionFacts.

(** ** The course list (components/CourseSelector.tsx) *)

Section CourseListFacts.

Import CourseSelector.

Lemma truthy_false (s : string) : JsString.truthy s = false <-> s = "".
Proof. destruct s; simpl; split; congruence. Qed.

Lemma truthy_toLowerCase (s : string) :
  JsString.truthy (JsString.toLowerCase s) = JsString.truthy s.
Proof. destruct s; reflexivity. Qed.

Lemma filter_sublist {A} (f : A -> bool) (l : list A) :
  List.filter f l `sublist_of` l.
Proof.
  induction l as [| x l IH]; simpl.
  - constructor.
  - destruct (f x); [apply sublist_skip | apply sublist_cons]; exact IH.
Qed.

Lemma slice0_prefix {A} (l : list A) (n : Z) :
  (0 <= n)%Z ->
  slice0 l n = take (Z.to_nat (Z.min n (Z.of_nat (length l)))) l.
Proof.
  intros Hn. unfold slice0.
  destruct (Z.ltb_spec n 0) as [Hneg | _]; [lia | reflexivity].
Qed.

Lemma slice0_sublist {A} (l : list A) (n : Z) : slice0 l n `sublist_of` l.
Proof. unfold slice0. apply sublist_take. Qed.

Lemma handleCourseScroll_grows l q target n :
  let n' := handleCourseScroll l q target n in
  (n <= n')%Z /\ (n' <> n -> (n' <= Z.of_nat (length l))%Z).
Proof.
  unfold handleCourseScroll, LOAD_MORE_COUNT.
  destruct (JsString.truthy q); simpl; [lia |].
  destruct (_ >=? _)%Z; simpl; [| lia].
  destruct (Z.ltb_spec n (Z.of_nat (length l))); lia.
Qed.

(** [visibleCourseCount] never goes below its initial value. *)
Lemma step_count st ev :
  (INITIAL_COURSE_COUNT <= visibleCourseCount st)%Z ->
  (INITIAL_COURSE_COUNT <= visibleCourseCount (step st ev))%Z.
Proof.
  intros Hst. destruct ev as [l | | open | text | target]; simpl;
    try exact Hst; try reflexivity.
  - destruct (Bool.eqb open (isCoursePopoverOpen st)); [exact Hst | reflexivity].
  - pose proof (handleCourseScroll_grows (courses st) (courseSearchQuery st)
                  target (visibleCourseCount st)) as [Hle _].
    lia.
Qed.

Lemma run_events_count evs : forall st,
  (INITIAL_COURSE_COUNT <= visibleCourseCount st)%Z ->
  (INITIAL_COURSE_COUNT <= visibleCourseCount (run_events evs st))%Z.
Proof.
  induction evs as [| ev evs IH]; intros st Hst; simpl.
  - exact Hst.
  - apply IH, step_count, Hst.
Qed.

(** C10. In every state the component reaches: with a non-empty trimmed
    query the displayed list is the courses whose lower-cased code contains
    the trimmed, lower-cased query, in their order; with an empty trimmed
    query it is the first [min visibleCourseCount length] courses; a scroll
    never lowers [visibleCourseCount] and a new value is at most the length
    of the list; and the displayed list is a subsequence of the courses. *)
Theorem C10_displayed_courses : forall evs,
  let st := run_events evs initial in
  let query := JsString.toLowerCase (JsString.trim (courseSearchQuery st)) in
  (JsString.trim (courseSearchQuery st) <> "" ->
   displayed st
   = List.filter
       (fun course => JsString.includes (JsString.toLowerCase course) query)
       (courses st))
  /\ (JsString.trim (courseSearchQuery st) = "" ->
      displayed st
      = take (Z.to_nat (Z.min (visibleCourseCount st)
                          (Z.of_nat (length (courses st)))))
          (courses st))
  /\ (forall target,
         let n := visibleCourseCount st in
         let n' := visibleCourseCount (step st (Scroll target)) in
         (n <= n')%Z /\ (n' <> n -> (n' <= Z.of_nat (length (courses st)))%Z))
  /\ displayed st `sublist_of` courses st.
Proof.
  intros evs st query.
  assert (Hcount : (INITIAL_COURSE_COUNT <= visibleCourseCount st)%Z).
  { apply run_events_count. reflexivity. }
  unfold INITIAL_COURSE_COUNT in Hcount.
  unfold displayed, filteredAndDisplayedCourses. fold query.
  repeat split.
  - intros Hne.
    destruct (JsString.truthy query) eqn:Hq; [reflexivity |].
    exfalso. apply Hne. apply truthy_false.
    unfold query in Hq. rewrite truthy_toLowerCase in Hq. exact Hq.
  - intros Hempty.
    assert (Hq : JsString.truthy query = false).
    { unfold query. rewrite truthy_toLowerCase. apply truthy_false, Hempty. }
    rewrite Hq. apply slice0_prefix. lia.
  - apply (handleCourseScroll_grows (courses st) (courseSearchQuery st) target
             (visibleCourseCount st)).
  - apply (handleCourseScroll_grows (courses st) (courseSearchQuery st) target
             (visibleCourseCount st)).
  - destruct (JsString.truthy query); [apply filter_sublist | apply slice0_sublist].
Qed.

End CourseListFacts.

(** ** The list of terms (hooks/useCourseData.tsx, TermSelector.tsx) *)

Section CodeUnitOrder.

Import Hooks.

Lemma string_compare_trans : forall a b c : string,
  String.compare a b <> Gt -> String.compare b c <> Gt ->
  String.compare a c <> Gt.
Proof.
  induction a as [| x a IH]; intros [| y b] [| z c]; simpl;
    try congruence.
  unfold Ascii.compare.
  destruct (N.compare_spec (N_of_ascii x) (N_of_ascii y)) as [Hxy | Hxy | Hxy];
    destruct (N.compare_spec (N_of_ascii y) (N_of_ascii z)) as [Hyz | Hyz | Hyz];
    destruct (N.compare_spec (N_of_ascii x) (N_of_ascii z)) as [Hxz | Hxz | Hxz];
    try congruence; try lia; intros Hab Hbc.
  apply (IH b c); assumption.
Qed.

Lemma code_unit_compare_antisym a b :
  (code_unit_compare a b > 0)%Z -> (code_unit_compare b a <= 0)%Z.
Proof.
  unfold code_unit_compare. rewrite (String.compare_antisym b a).
  destruct (String.compare a b); simpl; lia.
Qed.

Lemma code_unit_compare_trans a b c :
  (code_unit_compare a b <= 0)%Z -> (code_unit_compare b c <= 0)%Z ->
  (code_unit_compare a c <= 0)%Z.
Proof.
  unfold code_unit_compare. intros Hab Hbc.
  assert (Hac : String.compare a c <> Gt).
  { apply (string_compare_trans a b c).
    - destruct (String.compare a b); [congruence | congruence | lia].
    - destruct (String.compare b c); [congruence | congruence | lia]. }
  destruct (String.compare a c); [lia | lia | congruence].
Qed.

End CodeUnitOrder.

Section TermsFacts.

Import Api Hooks Context.

Variable localeCompare : string -> string -> Z.

(** The collation is a consistent comparator. *)
Hypothesis localeCompare_antisym : forall a b,
  (localeCompare a b > 0)%Z -> (localeCompare b a <= 0)%Z.
Hypothesis localeCompare_trans : forall a b c,
  (localeCompare a b <= 0)%Z -> (localeCompare b c <= 0)%Z ->
  (localeCompare a c <= 0)%Z.

Local Abbreviation cmp := (by_id localeCompare).
Local Abbreviation asc := (ascending localeCompare).

Lemma ascending_refl a : asc a a.
Proof.
  unfold ascending, by_id.
  destruct (Z_gt_le_dec (localeCompare (id a) (id a)) 0) as [Hgt | Hle].
  - apply localeCompare_antisym, Hgt.
  - exact Hle.
Qed.

Lemma insert_sorted_perm x l : insert_sorted cmp x l ≡ₚ x :: l.
Proof.
  induction l as [| y l IH]; simpl.
  - reflexivity.
  - destruct (cmp x y >? 0)%Z.
    + rewrite IH. apply perm_swap.
    + reflexivity.
Qed.

Lemma sort_perm l : sort cmp l ≡ₚ l.
Proof.
  induction l as [| x l IH]; simpl.
  - reflexivity.
  - rewrite insert_sorted_perm, IH. reflexivity.
Qed.

Lemma insert_sorted_sorted x l :
  StronglySorted asc l -> StronglySorted asc (insert_sorted cmp x l).
Proof.
  induction l as [| y l IH]; intros Hl; simpl.
  - repeat constructor.
  - apply StronglySorted_inv in Hl as [Hl Hy].
    destruct (Z.gtb_spec (cmp x y) 0) as [Hgt | Hle].
    + constructor; [apply IH, Hl |].
      rewrite insert_sorted_perm. constructor; [| exact Hy].
      unfold ascending, by_id in *. apply localeCompare_antisym. lia.
    + constructor; [constructor; assumption |].
      constructor; [exact Hle |].
      eapply Forall_impl; [exact Hy |].
      intros z Hyz. unfold ascending, by_id in *.
      eapply localeCompare_trans; eassumption.
Qed.

Lemma sort_sorted l : StronglySorted asc (sort cmp l).
Proof.
  induction l as [| x l IH]; simpl.
  - constructor.
  - apply insert_sorted_sorted, IH.
Qed.

(** The last element of a sorted list bounds the others. *)
Lemma sorted_last_greatest l t :
  StronglySorted asc l -> last l = Some t -> forall x, x ∈ l -> asc x t.
Proof.
  induction l as [| y l IH]; intros Hl Hlast x Hx.
  - discriminate.
  - apply StronglySorted_inv in Hl as [Hl Hy].
    destruct l as [| z l'].
    + simpl in Hlast. injection Hlast as <-.
      apply list_elem_of_singleton in Hx as ->. apply ascending_refl.
    + change (last (z :: l') = Some t) in Hlast.
      apply elem_of_cons in Hx as [-> | Hx].
      * rewrite Forall_forall in Hy. apply Hy.
        eapply last_Some_elem_of. exact Hlast.
      * apply IH; assumption.
Qed.

(** C8. [select] of [useTerms] returns the empty array for an argument that
    is not an array; for an array of terms it returns a new array and leaves
    every array of the store, its argument among them, as it was; the new
    array is a permutation of the argument in which the [id] of an element
    never comes after the [id] of a later element under [localeCompare],
    the collation of the host: [a.id.localeCompare(b.id) <= 0] for every
    [a] before [b]; and with no term selected, the effect of TermSelector
    selects the [id] of its last element, which the [id] of no element
    comes after. *)
Theorem C8_terms_sorted :
  (forall (h : heap) (data : value),
      Array_isArray data = false ->
      exists h' out,
        select localeCompare h data = Some (h', out)
        /\ h' !! out = Some []
        /\ h !! out = None
        /\ (forall b k, h !! b = Some k -> h' !! b = Some k))
  /\ (forall (h : heap) (a : loc) (l : list Term),
         h !! a = Some l ->
         exists h' out sorted,
           select localeCompare h (VArray a) = Some (h', out)
           /\ h !! out = None
           /\ (forall b k, h !! b = Some k -> h' !! b = Some k)
           /\ h' !! out = Some sorted
           /\ sorted ≡ₚ l
           /\ StronglySorted
                (fun a b => (localeCompare (id a) (id b) <= 0)%Z) sorted
           /\ (forall sel,
                  selectedTerm sel = "" -> l <> [] ->
                  exists t,
                    last sorted = Some t
                    /\ TermSelector.initial_term_effect (Some sorted) sel
                       = setSelectedTerm (id t) sel
                    /\ (forall x,
                           x ∈ sorted ->
                           (localeCompare (id x) (id t) <= 0)%Z))).
Proof.
  split.
  - intros h data Hdata.
    exists (h ++ [[]])%list, (length h).
    unfold select, alloc. rewrite Hdata. simpl negb. cbv iota.
    repeat split.
    + rewrite lookup_app_r by lia. rewrite Nat.sub_diag. reflexivity.
    + apply lookup_ge_None. lia.
    + intros b k Hb. apply lookup_app_l_Some, Hb.
  - intros h a l Ha.
    exists (<[length h := sort cmp l]> (h ++ [l])%list), (length h), (sort cmp l).
    assert (Hfresh : h !! length h = None) by (apply lookup_ge_None; lia).
    repeat split.
    + unfold select. simpl. rewrite Ha. reflexivity.
    + exact Hfresh.
    + intros b k Hb.
      assert (b <> length h) by congruence.
      rewrite list_lookup_insert_ne by congruence.
      apply lookup_app_l_Some, Hb.
    + apply list_lookup_insert_eq. rewrite length_app. simpl. lia.
    + apply sort_perm.
    + apply sort_sorted.
    + intros sel Hsel Hl.
      assert (Hlen : length (sort cmp l) <> 0%nat).
      { rewrite (Permutation_length (sort_perm l)).
        destruct l; [congruence | discriminate]. }
      destruct (last (sort cmp l)) as [t |] eqn:Hlast.
      2: { apply last_None in Hlast. rewrite Hlast in Hlen. contradiction. }
      exists t. split; [reflexivity |]. split.
      * unfold TermSelector.initial_term_effect. rewrite Hsel. simpl negb.
        rewrite last_lookup in Hlast.
        replace (length (sort cmp l) - 1)%nat with (pred (length (sort cmp l)))
          by lia.
        rewrite Hlast.
        destruct (Z.ltb_spec 0 (Z.of_nat (length (sort cmp l)))); [reflexivity | lia].
      * apply sorted_last_greatest; [apply sort_sorted | exact Hlast].
Qed.

End TermsFacts.

(** C8 at three terms, under the order of the code units: the copy is
    sorted, the argument is as it was, and the last term is selected. *)
Lemma C8_terms_sorted_witness :
  let fall := {| Api.id := "3202530"; Api.name := "Fall" |} in
  let winter := {| Api.id := "3202510"; Api.name := "Winter" |} in
  let spring := {| Api.id := "3202520"; Api.name := "Spring" |} in
  Hooks.select Hooks.code_unit_compare [[fall; winter; spring]]
    (Hooks.VArray 0%nat)
  = Some ([[fall; winter; spring]; [winter; spring; fall]], 1%nat)
  /\ [winter; spring; fall] ≡ₚ [fall; winter; spring]
  /\ StronglySorted
       (fun a b =>
          (Hooks.code_unit_compare (Api.id a) (Api.id b) <= 0)%Z)
       [winter; spring; fall]
  /\ TermSelector.initial_term_effect (Some [winter; spring; fall])
       Context.initial
     = Context.setSelectedTerm "3202530" Context.initial.
Proof.
  intros fall winter spring.
  destruct (C8_terms_sorted Hooks.code_unit_compare
              code_unit_compare_antisym code_unit_compare_trans)
    as [_ Harray].
  destruct (Harray [[fall; winter; spring]] 0%nat [fall; winter; spring]
              eq_refl)
    as (h' & out & sorted & Hsel & _ & _ & Hout & Hperm & Hsorted & Hlast).
  injection Hsel as <- <-. injection Hout as <-.
  split; [reflexivity |]. split; [exact Hperm |]. split; [exact Hsorted |].
  destruct (Hlast Context.initial eq_refl) as (t & Ht & Heffect & _);
    [discriminate |].
  injection Ht as <-. exact Heffect.
Defined.

(** ** The API functions (services/api.ts) *)

Section ApiFacts.

Variable base : string.








End ApiFacts.


(** C3, at a response the code mishandles: status 500 with the JSON text
    [null] as body. Both functions throw the [TypeError] of the read
    [errorData.error], which carries no status, where the specification
    (and the documentation of [handleResponse]) has an [ApiError] with
    status 500. *)
Theorem C3_error_body_null :
  let response :=
    {| status := 500; statusText := "INTERNAL SERVER ERROR";
       body := Json JNull |} in
  let net := fun _ : Request => Resolved response in
  ok response = false
  /\ run net (Api.getCourses "https://api" "3202510")
     = Rejected (ThrowError (TypeError (null_read_message "error")))
  /\ run net (Api.getCourseDetails "https://api" "3202510" "COMPSCI 1JC3")
     = Rejected (ThrowError (TypeError (null_read_message "error")))
  /\ (forall message status data,
         run net (Api.getCourses "https://api" "3202510")
         <> Rejected (ThrowError (ApiError message status data))).
Proof.
  intros response net. repeat split. intros message status data. discriminate.
Qed.

Section WatchRequestFacts.

Variable base : string.


End WatchRequestFacts.



(** ** The section records (interface CourseDetailsSection) *)














(** ** The watch dialog (CourseDetailsDisplay.tsx, WatchSectionDialog.tsx) *)

Section DisplayFacts.

Import Api Context Sections Display.

Variable base : string.

(** The rows of the card are those of [SectionBlock]. *)
Lemma rendered_row st blocks b r blockType rows row :
  render st = SectionsCard blocks ->
  blocks !! b = Some (blockType, rows) ->
  rows !! r = Some row ->
  watch_disabled row = isWatchDisabled (row_section row) (isPending st).
Proof.
  unfold render. intros Hrender Hb Hr.
  repeat match type of Hrender with
         | (if ?c then _ else _) = _ => destruct c; try discriminate Hrender
         end.
  injection Hrender as <-.
  rewrite list_lookup_fmap in Hb.
  destruct (default [] (data (query st)) !! b) as [[bt sections] |];
    [| discriminate Hb].
  simpl in Hb. injection Hb as _ <-.
  unfold SectionBlock in Hr. rewrite list_lookup_fmap in Hr.
  destruct (sections !! r) as [section |]; [| discriminate Hr].
  simpl in Hr. injection Hr as <-. reflexivity.
Qed.

Lemma enabled_row_is_full section pending :
  isWatchDisabled section pending = false ->
  (open_seats section <= 0)%Z /\ pending = false.
Proof.
  unfold isWatchDisabled. intros H.
  apply orb_false_iff in H as [Hopen Hpending].
  split; [| exact Hpending].
  destruct (Z.gtb_spec (open_seats section) 0); [discriminate | lia].
Qed.

Lemma addWatchRequest_suspends payload :
  exists req k,
    Api.addWatchRequest base payload = Fetch req k
    /\ req = Api.POST_json (base ++ "/watch") (stringify payload)
    /\ forall r, exists out, k r = Ret out.
Proof.
  unfold Api.addWatchRequest. eexists _, _.
  split; [reflexivity |]. split; [reflexivity |]. intros r. eauto.
Qed.

Lemma setIsWatchDialogOpen_consistent open st :
  consistent st -> consistent (setIsWatchDialogOpen open st).
Proof.
  intros (Hemail & Hfull & Hk). unfold setIsWatchDialogOpen.
  destruct (open && negb (isWatchDialogOpen st)); repeat split; simpl;
    assumption.
Qed.

Lemma setWatchSection_consistent s st :
  (forall s', s = Some s' -> (open_seats s' <= 0)%Z) ->
  consistent st -> consistent (setWatchSection s st).
Proof.
  intros Hs (Hemail & Hfull & Hk). repeat split; simpl; assumption.
Qed.

Lemma with_mutation_consistent m st :
  (forall k, m = Some k -> forall r, exists out, k r = Ret out) ->
  consistent st -> consistent (with_mutation m st).
Proof.
  intros Hm (Hemail & Hfull & Hk). repeat split; simpl; assumption.
Qed.

Lemma settled_consistent out st :
  consistent st -> consistent (fst (settled out st)).
Proof.
  intros Hst. unfold settled.
  destruct out as [response | err]; [| exact Hst].
  destruct (get response "message"); [| exact Hst]. simpl.
  apply setWatchSection_consistent; [discriminate |].
  apply setIsWatchDialogOpen_consistent, Hst.
Qed.

Lemma mutate_consistent payload st :
  consistent st -> consistent (fst (mutate base payload st)).
Proof.
  intros Hst. unfold mutate.
  destruct (addWatchRequest_suspends payload) as (req & k & -> & _ & Hk).
  simpl. apply with_mutation_consistent; [| exact Hst].
  intros k' [= <-]. exact Hk.
Qed.

Lemma handleSubmit_consistent st :
  consistent st -> consistent (fst (handleSubmit base st)).
Proof.
  intros Hst. unfold handleSubmit.
  destruct (_ || _); [exact Hst |].
  unfold handleWatchSubmit.
  destruct (watchSection st); [| exact Hst].
  destruct (_ || _); [exact Hst |].
  apply mutate_consistent, Hst.
Qed.

Lemma step_consistent st ev :
  consistent st -> consistent (fst (step base st ev)).
Proof.
  intros Hst. pose proof Hst as (Hemail & Hfull & Hk).
  destruct ev as [q | t | c | v | b r | open | | text | | r]; simpl.
  - exact Hst.
  - exact Hst.
  - exact Hst.
  - exact Hst.
  - destruct (render st) as [| | | | blocks] eqn:Hrender; try exact Hst.
    destruct (blocks !! b) as [[blockType rows] |] eqn:Hb; [| exact Hst].
    destruct (rows !! r) as [row |] eqn:Hr; [| exact Hst].
    destruct (watch_disabled row) eqn:Hdisabled; [exact Hst |]. simpl.
    rewrite (rendered_row st blocks b r blockType rows row Hrender Hb Hr)
      in Hdisabled.
    apply enabled_row_is_full in Hdisabled as [Hopen _].
    unfold handleWatchClick.
    apply setIsWatchDialogOpen_consistent, setWatchSection_consistent;
      [| exact Hst].
    intros s' [= <-]. exact Hopen.
  - apply setIsWatchDialogOpen_consistent, Hst.
  - repeat split; simpl; assumption.
  - repeat split; simpl; assumption.
  - apply handleSubmit_consistent, Hst.
  - destruct (mutation st) as [k |] eqn:Hm; [| exact Hst].
    destruct (Hk k eq_refl r) as (out & ->).
    apply settled_consistent, with_mutation_consistent; [discriminate | exact Hst].
Qed.

Lemma run_events_consistent evs : forall st,
  consistent st -> consistent (fst (run_events base evs st)).
Proof.
  induction evs as [| ev evs IH]; intros st Hst; simpl.
  - exact Hst.
  - pose proof (step_consistent st ev Hst) as Hstep.
    destruct (step base st ev) as [st1 effs1]. simpl in Hstep.
    specialize (IH st1 Hstep).
    destruct (run_events base evs st1) as [st2 effs2]. exact IH.
Qed.

Lemma state_after_consistent evs : consistent (state_after base evs).
Proof.
  apply run_events_consistent. repeat split; simpl; try discriminate.
Qed.

(** The requests a step sends: one, by a submitted form, built from the
    state. *)
Lemma step_sends st ev req :
  consistent st ->
  In req (sent (snd (step base st ev))) ->
  ev = SubmitForm
  /\ isValidEmail st = true
  /\ isPending st = false
  /\ exists s,
       watchSection st = Some s
       /\ req = Api.POST_json (base ++ "/watch")
                  (stringify
                     (JObj [("email", JStr (email st));
                            ("term_id", JStr (selectedTerm (selection st)));
                            ("course_code",
                             JStr (selectedCourse (selection st)));
                            ("section_key", JStr (key s))])).
Proof.
  intros (Hemail & Hfull & Hk) Hreq.
  destruct ev as [q | t | c | v | b r | open | | text | | r]; simpl in Hreq;
    try contradiction.
  - destruct (render st) as [| | | | blocks]; try contradiction.
    destruct (blocks !! b) as [[blockType rows] |]; [| contradiction].
    destruct (rows !! r) as [row |]; [| contradiction].
    destruct (watch_disabled row); contradiction.
  - unfold handleSubmit in Hreq.
    destruct (isValidEmail st) eqn:Hvalid; simpl in Hreq; [| intuition].
    destruct (isPending st) eqn:Hpending; simpl in Hreq; [contradiction |].
    unfold handleWatchSubmit in Hreq.
    destruct (watchSection st) as [s |] eqn:Hs; simpl in Hreq;
      [| contradiction].
    destruct (_ || _); simpl in Hreq; [intuition |].
    unfold mutate, Api.addWatchRequest in Hreq. simpl in Hreq.
    destruct Hreq as [<- | []].
    repeat split. exists s. split; reflexivity.
  - destruct (mutation st) as [k |] eqn:Hm; [| contradiction].
    destruct (Hk k eq_refl r) as (out & Hout). rewrite Hout in Hreq.
    unfold settled in Hreq.
    destruct out as [response | err]; simpl in Hreq; [| intuition].
    destruct (get response "message"); simpl in Hreq; intuition.
Qed.

End DisplayFacts.

(** ** The watch dialog of App.tsx *)

Section AppFacts.

Import Api0 App.

Variable base : string.

Lemma app_rendered_row st blocks b r blockType rows row :
  renderCourseDetails st = SectionsCard blocks ->
  blocks !! b = Some (blockType, rows) ->
  rows !! r = Some row ->
  watch_disabled row
  = watch_button_disabled (row_section row) (isSubmittingWatch st).
Proof.
  unfold renderCourseDetails. intros Hrender Hb Hr.
  repeat match type of Hrender with
         | (if ?c then _ else _) = _ => destruct c; try discriminate Hrender
         end.
  injection Hrender as <-.
  rewrite list_lookup_fmap in Hb.
  destruct (default [] (courseDetails st) !! b) as [[bt sections] |];
    [| discriminate Hb].
  simpl in Hb. injection Hb as _ <-.
  rewrite list_lookup_fmap in Hr.
  destruct (sections !! r) as [section |]; [| discriminate Hr].
  simpl in Hr. injection Hr as <-. reflexivity.
Qed.

Lemma app_enabled_row_is_full section submitting :
  watch_button_disabled section submitting = false ->
  (open_seats section <= 0)%Z /\ submitting = false.
Proof.
  unfold watch_button_disabled. intros H.
  apply orb_false_iff in H as [Hopen Hsubmitting].
  split; [| exact Hsubmitting].
  destruct (Z.gtb_spec (open_seats section) 0); [discriminate | lia].
Qed.

Lemma promise_settled_consistent out st :
  consistent st -> consistent (fst (promise_settled out st)).
Proof.
  intros (Hfull & Hk). unfold promise_settled.
  destruct (promise_body out); split; simpl; try assumption; discriminate.
Qed.

Lemma handleWatchSubmit_consistent st :
  consistent st -> consistent (fst (handleWatchSubmit base st)).
Proof.
  intros Hst. unfold handleWatchSubmit.
  destruct (_ || _); [exact Hst |].
  destruct (negb _); [exact Hst |].
  destruct (watchSection st); [| exact Hst].
  destruct (_ || _); [exact Hst |].
  unfold Api0.addWatchRequest. simpl.
  destruct Hst as (Hfull & Hk).
  split; simpl; [exact Hfull |].
  intros k [= <-] r. eauto.
Qed.

Lemma app_step_consistent st ev :
  consistent st -> consistent (fst (step base st ev)).
Proof.
  intros Hst. pose proof Hst as (Hfull & Hk).
  destruct ev as [t | c | d | b r | open | text | | r]; simpl.
  - destruct (String.eqb t (selectedTerm st)); exact Hst.
  - destruct (String.eqb c (selectedCourse st)); exact Hst.
  - exact Hst.
  - destruct (renderCourseDetails st) as [| | | blocks] eqn:Hrender;
      try exact Hst.
    destruct (blocks !! b) as [[blockType rows] |] eqn:Hb; [| exact Hst].
    destruct (rows !! r) as [row |] eqn:Hr; [| exact Hst].
    destruct (watch_disabled row) eqn:Hdisabled; [exact Hst |]. simpl.
    rewrite (app_rendered_row st blocks b r blockType rows row Hrender Hb Hr)
      in Hdisabled.
    apply app_enabled_row_is_full in Hdisabled as [Hopen _].
    split; simpl; [| exact Hk].
    intros s' [= <-]. exact Hopen.
  - exact Hst.
  - exact Hst.
  - destruct (submit_button_disabled st); [exact Hst |].
    apply handleWatchSubmit_consistent, Hst.
  - destruct (request st) as [k |] eqn:Hrequest; [| exact Hst].
    destruct (Hk k eq_refl r) as (out & ->).
    apply promise_settled_consistent, Hst.
Qed.

Lemma app_run_events_consistent evs : forall st,
  consistent st -> consistent (fst (run_events base evs st)).
Proof.
  induction evs as [| ev evs IH]; intros st Hst; simpl.
  - exact Hst.
  - pose proof (app_step_consistent st ev Hst) as Hstep.
    destruct (step base st ev) as [st1 effs1]. simpl in Hstep.
    specialize (IH st1 Hstep).
    destruct (run_events base evs st1) as [st2 effs2]. exact IH.
Qed.

Lemma app_state_after_consistent evs : consistent (state_after base evs).
Proof.
  apply app_run_events_consistent. split; simpl; discriminate.
Qed.

(** The requests [handleWatchSubmit] sends: one, when the address passes
    both checks, built from the state. *)
Lemma handleWatchSubmit_sends st req :
  In req (sent (snd (handleWatchSubmit base st))) ->
  valid_email (watchEmail st) = true
  /\ exists s,
       watchSection st = Some s
       /\ req = Api.POST_json (base ++ "/watch")
                  (stringify
                     (JObj [("email", JStr (watchEmail st));
                            ("term_id", JStr (selectedTerm st));
                            ("course_code", JStr (selectedCourse st));
                            ("section_key", JStr (key s))])).
Proof.
  unfold handleWatchSubmit, valid_email. intros Hreq.
  destruct (JsString.truthy (watchEmail st)); simpl in Hreq; [| contradiction].
  destruct (JsString.trim (watchEmail st)) as [| c rest] eqn:Htrim;
    simpl in Hreq; [contradiction |].
  destruct (Regex.test Regex.email_pattern (watchEmail st)); simpl in Hreq;
    [| contradiction].
  destruct (watchSection st) as [s |]; simpl in Hreq; [| contradiction].
  destruct (_ || _); simpl in Hreq; [contradiction |].
  destruct Hreq as [<- | []].
  split; [reflexivity |]. exists s. split; reflexivity.
Qed.

Lemma app_step_sends st ev req :
  consistent st ->
  In req (sent (snd (step base st ev))) ->
  ev = ClickSubmit
  /\ valid_email (watchEmail st) = true
  /\ exists s,
       watchSection st = Some s
       /\ req = Api.POST_json (base ++ "/watch")
                  (stringify
                     (JObj [("email", JStr (watchEmail st));
                            ("term_id", JStr (selectedTerm st));
                            ("course_code", JStr (selectedCourse st));
                            ("section_key", JStr (key s))])).
Proof.
  intros (Hfull & Hk) Hreq.
  destruct ev as [t | c | d | b r | open | text | | r]; simpl in Hreq.
  - destruct (String.eqb t (selectedTerm st)); contradiction.
  - destruct (String.eqb c (selectedCourse st)); contradiction.
  - contradiction.
  - destruct (renderCourseDetails st) as [| | | blocks]; try contradiction.
    destruct (blocks !! b) as [[blockType rows] |]; [| contradiction].
    destruct (rows !! r) as [row |]; [| contradiction].
    destruct (watch_disabled row); contradiction.
  - contradiction.
  - contradiction.
  - destruct (submit_button_disabled st); [contradiction |].
    split; [reflexivity |]. apply handleWatchSubmit_sends, Hreq.
  - destruct (request st) as [k |] eqn:Hrequest; [| contradiction].
    destruct (Hk k eq_refl r) as (out & Hout). rewrite Hout in Hreq.
    unfold promise_settled in Hreq.
    destruct (promise_body out); simpl in Hreq; intuition.
Qed.

End AppFacts.

(** ** The watch dialog: which sections, which address, which body *)

(** C1 (amended). In both revisions the watch button of every rendered row
    is disabled when the [open_seats] of its section is above 0 or a watch
    request is pending; a click on a watch button changes the state only
    from a row whose section has [open_seats] at most 0, with no request
    pending; and in every state the client reaches, a request it sends is
    for the section of the dialog, whose row showed [open_seats] at most 0
    when it was clicked. *)
Theorem C1_watch_only_full_sections :
  forall base,
    (forall st blocks b r blockType rows row,
        Display.render st = Display.SectionsCard blocks ->
        blocks !! b = Some (blockType, rows) ->
        rows !! r = Some row ->
        (Api.open_seats (Sections.row_section row) > 0)%Z
        \/ Display.isPending st = true ->
        Sections.watch_disabled row = true)
    /\ (forall st blocks b r blockType rows row,
           App.renderCourseDetails st = App.SectionsCard blocks ->
           blocks !! b = Some (blockType, rows) ->
           rows !! r = Some row ->
           (Api0.open_seats (App.row_section row) > 0)%Z
           \/ App.isSubmittingWatch st = true ->
           App.watch_disabled row = true)
    /\ (forall st b r,
           fst (Display.step base st (Display.ClickWatch b r)) = st
           \/ exists blocks blockType rows row,
               Display.render st = Display.SectionsCard blocks
               /\ blocks !! b = Some (blockType, rows)
               /\ rows !! r = Some row
               /\ (Api.open_seats (Sections.row_section row) <= 0)%Z
               /\ Display.isPending st = false
               /\ fst (Display.step base st (Display.ClickWatch b r))
                  = Display.handleWatchClick (Sections.row_section row) st)
    /\ (forall st b r,
           fst (App.step base st (App.ClickWatch b r)) = st
           \/ exists blocks blockType rows row,
               App.renderCourseDetails st = App.SectionsCard blocks
               /\ blocks !! b = Some (blockType, rows)
               /\ rows !! r = Some row
               /\ (Api0.open_seats (App.row_section row) <= 0)%Z
               /\ App.isSubmittingWatch st = false
               /\ fst (App.step base st (App.ClickWatch b r))
                  = App.handleWatchClick (App.row_section row) st)
    /\ (forall evs ev req,
           let st := Display.state_after base evs in
           In req (sent (snd (Display.step base st ev))) ->
           exists s,
             Display.watchSection st = Some s
             /\ (Api.open_seats s <= 0)%Z
             /\ req = Api.POST_json (base ++ "/watch")
                        (stringify
                           (JObj [("email", JStr (Display.email st));
                                  ("term_id",
                                   JStr (Context.selectedTerm
                                           (Display.selection st)));
                                  ("course_code",
                                   JStr (Context.selectedCourse
                                           (Display.selection st)));
                                  ("section_key", JStr (Api.key s))])))
    /\ (forall evs ev req,
           let st := App.state_after base evs in
           In req (sent (snd (App.step base st ev))) ->
           exists s,
             App.watchSection st = Some s
             /\ (Api0.open_seats s <= 0)%Z
             /\ req = Api.POST_json (base ++ "/watch")
                        (stringify
                           (JObj [("email", JStr (App.watchEmail st));
                                  ("term_id", JStr (App.selectedTerm st));
                                  ("course_code",
                                   JStr (App.selectedCourse st));
                                  ("section_key", JStr (Api0.key s))]))).
Proof.
  intros base. repeat apply conj.
  - intros st blocks b r blockType rows row Hrender Hb Hr Hopen.
    rewrite (rendered_row st blocks b r blockType rows row Hrender Hb Hr).
    unfold Sections.isWatchDisabled.
    destruct Hopen as [Hopen | ->]; [| apply orb_true_r].
    apply orb_true_iff. left. apply Z.gtb_lt. lia.
  - intros st blocks b r blockType rows row Hrender Hb Hr Hopen.
    rewrite (app_rendered_row st blocks b r blockType rows row Hrender Hb Hr).
    unfold App.watch_button_disabled.
    destruct Hopen as [Hopen | ->]; [| apply orb_true_r].
    apply orb_true_iff. left. apply Z.gtb_lt. lia.
  - intros st b r. simpl.
    destruct (Display.render st) as [| | | | blocks] eqn:Hrender;
      try (left; reflexivity).
    destruct (blocks !! b) as [[blockType rows] |] eqn:Hb;
      [| left; reflexivity].
    destruct (rows !! r) as [row |] eqn:Hr; [| left; reflexivity].
    destruct (Sections.watch_disabled row) eqn:Hdisabled;
      [left; reflexivity |].
    right. exists blocks, blockType, rows, row.
    rewrite (rendered_row st blocks b r blockType rows row Hrender Hb Hr)
      in Hdisabled.
    apply enabled_row_is_full in Hdisabled as [Hopen Hpending].
    repeat split; assumption.
  - intros st b r. simpl.
    destruct (App.renderCourseDetails st) as [| | | blocks] eqn:Hrender;
      try (left; reflexivity).
    destruct (blocks !! b) as [[blockType rows] |] eqn:Hb;
      [| left; reflexivity].
    destruct (rows !! r) as [row |] eqn:Hr; [| left; reflexivity].
    destruct (App.watch_disabled row) eqn:Hdisabled; [left; reflexivity |].
    right. exists blocks, blockType, rows, row.
    rewrite (app_rendered_row st blocks b r blockType rows row Hrender Hb Hr)
      in Hdisabled.
    apply app_enabled_row_is_full in Hdisabled as [Hopen Hsubmitting].
    repeat split; assumption.
  - intros evs ev req st Hreq.
    pose proof (state_after_consistent base evs) as Hst. fold st in Hst.
    destruct (step_sends base st ev req Hst Hreq)
      as (_ & _ & _ & s & Hs & ->).
    exists s. split; [exact Hs |]. split; [| reflexivity].
    destruct Hst as (_ & Hfull & _). apply Hfull, Hs.
  - intros evs ev req st Hreq.
    pose proof (app_state_after_consistent base evs) as Hst. fold st in Hst.
    destruct (app_step_sends base st ev req Hst Hreq) as (_ & _ & s & Hs & ->).
    exists s. split; [exact Hs |]. split; [| reflexivity].
    destruct Hst as (Hfull & _). apply Hfull, Hs.
Qed.

(** C1 as stated fails on CourseDetailsDisplay: the seats are checked at
    the click, not at the submission. The dialog is opened on a full
    section; a refetch then shows the section with 5 open seats, its watch
    button disabled; the form of the dialog, still open, is submitted, and
    the request for that section is sent. *)
Lemma C1_refetch_while_dialog_open :
  let section open :=
    {| Api.block_type := "LEC"; Api.key := "1234"; Api.open_seats := open;
       Api.total_seats := 120; Api.section := "C01" |} in
  let fetched open :=
    {| Display.data := Some [("LEC", [section open])];
       Display.isLoading := false; Display.isFetching := false;
       Display.isError := false; Display.error_text := "" |} in
  let evs :=
    [Display.SelectTerm "3202510"; Display.SelectCourse "COMPSCI 1JC3";
     Display.QueryUpdate (fetched 0); Display.ClickWatch 0 0;
     Display.TypeEmail "student@mcmaster.ca";
     Display.QueryUpdate (fetched 5)] in
  let st := Display.state_after "https://api" evs in
  Display.render st
  = Display.SectionsCard
      [("LEC", [Sections.SectionRow (section 5) true false])]
  /\ (Api.open_seats (section 5) > 0)%Z
  /\ Display.isWatchDialogOpen st = true
  /\ sent (snd (Display.step "https://api" st Display.SubmitForm))
     = [Api.POST_json "https://api/watch"
          (stringify
             (JObj [("email", JStr "student@mcmaster.ca");
                    ("term_id", JStr "3202510");
                    ("course_code", JStr "COMPSCI 1JC3");
                    ("section_key", JStr (Api.key (section 5)))]))].
Proof.
  intros section fetched evs st. repeat split.
Qed.

(** C1 on a run: the row of the open section does nothing, the row of the
    full one opens the dialog, and the request that follows is for it. *)
Example C1_run :
  let full :=
    {| Api.block_type := "LEC"; Api.key := "1234"; Api.open_seats := 0;
       Api.total_seats := 120; Api.section := "C01" |} in
  let open :=
    {| Api.block_type := "LEC"; Api.key := "1235"; Api.open_seats := 5;
       Api.total_seats := 120; Api.section := "C02" |} in
  let loaded :=
    {| Display.data := Some [("LEC", [full; open])];
       Display.isLoading := false; Display.isFetching := false;
       Display.isError := false; Display.error_text := "" |} in
  let evs :=
    [Display.SelectTerm "3202510"; Display.SelectCourse "COMPSCI 1JC3";
     Display.QueryUpdate loaded; Display.ClickWatch 0 1;
     Display.TypeEmail "student@mcmaster.ca"; Display.SubmitForm;
     Display.ClickWatch 0 0; Display.TypeEmail "student@mcmaster.ca";
     Display.SubmitForm] in
  sent (snd (Display.run_events "https://api" evs Display.initial))
  = [Api.POST_json "https://api/watch"
       (stringify
          (JObj [("email", JStr "student@mcmaster.ca");
                 ("term_id", JStr "3202510");
                 ("course_code", JStr "COMPSCI 1JC3");
                 ("section_key", JStr "1234")]))].
Proof. reflexivity. Qed.

Lemma empty_email_trims email :
  JsString.truthy email = false -> JsString.truthy (JsString.trim email) = false.
Proof. destruct email; [reflexivity | discriminate]. Qed.

(** C5. A request is sent only with an address that is not empty after
    trimming and matches the pattern, in every state either revision
    reaches. On an address that fails this check the submit handler sends
    nothing, leaves the state as it is and tells the user that the address
    is not valid: [handleSubmit] of WatchSectionDialog with the toast
    [Invalid Email]; [handleWatchSubmit] of App.tsx with the toast
    [Email Required] when the address is empty after trimming and the toast
    [Invalid Email] otherwise. The button that calls [handleWatchSubmit] is
    disabled for these addresses, so that a click on it does nothing. *)
Theorem C5_invalid_email_not_sent :
  forall base,
    (forall evs,
        let st := Display.state_after base evs in
        (valid_email (Display.email st) = false ->
         Display.handleSubmit base st
         = (st, [Toast ToastError "Invalid Email"
                   (Some "Please enter a valid email address.")])
         /\ sent (snd (Display.handleSubmit base st)) = [])
        /\ (forall ev req,
               In req (sent (snd (Display.step base st ev))) ->
               valid_email (Display.email st) = true))
    /\ (forall st,
           (valid_email (App.watchEmail st) = false ->
            App.handleWatchSubmit base st
            = (st,
               [if String.eqb (JsString.trim (App.watchEmail st)) ""
                then Toast ToastWarning "Email Required"
                       (Some "Please enter your email address.")
                else Toast ToastError "Invalid Email"
                       (Some "Please enter a valid email address.")]))
           /\ (valid_email (App.watchEmail st) = false ->
               sent (snd (App.handleWatchSubmit base st)) = []
               /\ App.step base st App.ClickSubmit = (st, []))
           /\ (forall req,
                  In req (sent (snd (App.handleWatchSubmit base st))) ->
                  valid_email (App.watchEmail st) = true))
    /\ (forall evs ev req,
           let st := App.state_after base evs in
           In req (sent (snd (App.step base st ev))) ->
           valid_email (App.watchEmail st) = true).
Proof.
  intros base. repeat apply conj.
  - intros evs st.
    pose proof (state_after_consistent base evs) as Hst. fold st in Hst.
    split.
    + intros Hinvalid. destruct Hst as (Hemail & _ & _).
      unfold Display.handleSubmit. rewrite Hemail, Hinvalid.
      split; reflexivity.
    + intros ev req Hreq.
      destruct (step_sends base st ev req Hst Hreq) as (_ & Hvalid & _).
      destruct Hst as (Hemail & _ & _). congruence.
  - intros st.
    assert (Hreport :
              valid_email (App.watchEmail st) = false ->
              App.handleWatchSubmit base st
              = (st,
                 [if String.eqb (JsString.trim (App.watchEmail st)) ""
                  then Toast ToastWarning "Email Required"
                         (Some "Please enter your email address.")
                  else Toast ToastError "Invalid Email"
                         (Some "Please enter a valid email address.")])).
    { intros Hinvalid. unfold App.handleWatchSubmit.
      unfold valid_email in Hinvalid.
      destruct (JsString.truthy (App.watchEmail st)) eqn:Hemail; simpl.
      * destruct (JsString.trim (App.watchEmail st)) as [| c rest] eqn:Htrim;
          simpl in *; [reflexivity |].
        rewrite Hinvalid. reflexivity.
      * apply empty_email_trims in Hemail.
        destruct (JsString.trim (App.watchEmail st));
          [reflexivity | discriminate]. }
    split; [exact Hreport |]. split.
    + intros Hinvalid. split.
      * rewrite (Hreport Hinvalid). simpl.
        destruct (String.eqb _ _); reflexivity.
      * simpl. unfold App.submit_button_disabled.
        unfold valid_email in Hinvalid.
        destruct (JsString.trim (App.watchEmail st)) as [| c rest];
          simpl in *.
        -- rewrite orb_true_r. reflexivity.
        -- rewrite Hinvalid, orb_true_r. reflexivity.
    + intros req Hreq. apply (handleWatchSubmit_sends base st req Hreq).
  - intros evs ev req st Hreq.
    pose proof (app_state_after_consistent base evs) as Hst. fold st in Hst.
    apply (app_step_sends base st ev req Hst Hreq).
Qed.

(** A blank address in App.tsx: the button is disabled and a click on it
    does nothing; [handleWatchSubmit] itself would answer with the toast
    [Email Required]. *)
Example App_blank_email :
  let st := App.setWatchEmail "   " App.initial in
  valid_email (App.watchEmail st) = false
  /\ App.step "https://api" st App.ClickSubmit = (st, [])
  /\ App.handleWatchSubmit "https://api" st
     = (st, [Toast ToastWarning "Email Required"
               (Some "Please enter your email address.")]).
Proof. intros st. repeat split. Qed.

(** C5 on a run of the dialog: an address without a dot after the at sign
    is refused, the corrected one is sent. *)
Example C5_run :
  let full :=
    {| Api.block_type := "LEC"; Api.key := "1234"; Api.open_seats := 0;
       Api.total_seats := 120; Api.section := "C01" |} in
  let loaded :=
    {| Display.data := Some [("LEC", [full])];
       Display.isLoading := false; Display.isFetching := false;
       Display.isError := false; Display.error_text := "" |} in
  let evs :=
    [Display.SelectTerm "3202510"; Display.SelectCourse "COMPSCI 1JC3";
     Display.QueryUpdate loaded; Display.ClickWatch 0 0;
     Display.TypeEmail "student@mcmaster"; Display.SubmitForm;
     Display.TypeEmail "student@mcmaster.ca"; Display.SubmitForm] in
  snd (Display.run_events "https://api" evs Display.initial)
  = [Toast ToastError "Invalid Email"
       (Some "Please enter a valid email address.");
     Send (Api.POST_json "https://api/watch"
             (stringify
                (JObj [("email", JStr "student@mcmaster.ca");
                       ("term_id", JStr "3202510");
                       ("course_code", JStr "COMPSCI 1JC3");
                       ("section_key", JStr "1234")])))].
Proof. reflexivity. Qed.

(** C6. In every state the client reaches, a request it sends is the POST
    to [/watch] whose body is the JSON text of the object with the members
    [email], [term_id], [course_code] and [section_key], in this order and
    no other: the address of the dialog, the selected term, the selected
    course and the key of the section of the dialog. *)
Theorem C6_watch_request_body :
  forall base evs ev req,
    let st := Display.state_after base evs in
    In req (sent (snd (Display.step base st ev))) ->
    exists s,
      Display.watchSection st = Some s
      /\ url req = base ++ "/watch"
      /\ method req = "POST"
      /\ request_body req
         = Some
             (stringify
                (JObj [("email", JStr (Display.email st));
                       ("term_id",
                        JStr (Context.selectedTerm (Display.selection st)));
                       ("course_code",
                        JStr (Context.selectedCourse (Display.selection st)));
                       ("section_key", JStr (Api.key s))]))
      /\ request_body req
         = Some
             ("{" ++ quote "email" ++ ":" ++ quote (Display.email st)
                ++ "," ++ quote "term_id" ++ ":"
                ++ quote (Context.selectedTerm (Display.selection st))
                ++ "," ++ quote "course_code" ++ ":"
                ++ quote (Context.selectedCourse (Display.selection st))
                ++ "," ++ quote "section_key" ++ ":" ++ quote (Api.key s)
                ++ "}")
      /\ Ts.implements Api.WatchRequestPayload_interface
           (JObj [("email", JStr (Display.email st));
                  ("term_id",
                   JStr (Context.selectedTerm (Display.selection st)));
                  ("course_code",
                   JStr (Context.selectedCourse (Display.selection st)));
                  ("section_key", JStr (Api.key s))])
         = true
      /\ forall net payload,
           issued net (Api.addWatchRequest base payload)
           = [Api.POST_json (base ++ "/watch") (stringify payload)].
Proof.
  intros base evs ev req st Hreq.
  pose proof (state_after_consistent base evs) as Hst. fold st in Hst.
  destruct (step_sends base st ev req Hst Hreq) as (_ & _ & _ & s & Hs & ->).
  exists s. split; [exact Hs |].
  split; [reflexivity |]. split; [reflexivity |]. split; [reflexivity |].
  split; [| split; reflexivity].
  simpl. repeat rewrite append_assoc. reflexivity.
Qed.

(** C6 on a run: the dialog of a full section, an address, the form
    submitted. *)
Lemma C6_watch_request_body_witness :
  let full :=
    {| Api.block_type := "LEC"; Api.key := "1234"; Api.open_seats := 0;
       Api.total_seats := 120; Api.section := "C01" |} in
  let loaded :=
    {| Display.data := Some [("LEC", [full])];
       Display.isLoading := false; Display.isFetching := false;
       Display.isError := false; Display.error_text := "" |} in
  let evs :=
    [Display.SelectTerm "3202510"; Display.SelectCourse "COMPSCI 1JC3";
     Display.QueryUpdate loaded; Display.ClickWatch 0 0;
     Display.TypeEmail "student@mcmaster.ca"] in
  let req :=
    Api.POST_json "https://api/watch"
      (stringify
         (JObj [("email", JStr "student@mcmaster.ca");
                ("term_id", JStr "3202510");
                ("course_code", JStr "COMPSCI 1JC3");
                ("section_key", JStr "1234")])) in
  sent (snd (Display.step "https://api"
               (Display.state_after "https://api" evs) Display.SubmitForm))
  = [req]
  /\ request_body req
     = Some
         ("{" ++ quote "email" ++ ":" ++ quote "student@mcmaster.ca"
            ++ "," ++ quote "term_id" ++ ":" ++ quote "3202510"
            ++ "," ++ quote "course_code" ++ ":" ++ quote "COMPSCI 1JC3"
            ++ "," ++ quote "section_key" ++ ":" ++ quote "1234" ++ "}").
Proof.
  intros full loaded evs req.
  split; [reflexivity |].
  destruct (C6_watch_request_body "https://api" evs Display.SubmitForm req)
    as (s & Hs & _ & _ & _ & Hbody & _ & _).
  - left. reflexivity.
  - injection Hs as <-. exact Hbody.
Defined.

(** ** The watch life cycle *)

Section RegistryFacts.

Import WatchRegistry.

Lemma decide_watch_allowed prior term course fresh w :
  decide_watch prior term course fresh w = watch_status w
  \/ transition (watch_status w) (decide_watch prior term course fresh w).
Proof.
  unfold decide_watch, transition, is_active.
  destruct (bool_decide (watch_status w = active)) eqn:Hactive; simpl;
    [| left; reflexivity].
  apply bool_decide_eq_true in Hactive.
  destruct (String.eqb (term_id w) term && String.eqb (course_code w) course);
    simpl; [| left; reflexivity].
  destruct (find_section (section_key w) fresh) as [s |]; [| right; auto].
  destruct (opening (prior !! section_key w) s); [right; auto |].
  left. symmetry. exact Hactive.
Qed.

(** A step keeps every row, and moves its status along a transition or
    not at all. *)
Lemma step_rows e ev i w :
  registry e !! i = Some w ->
  exists w',
    registry (fst (step e ev)) !! i = Some w'
    /\ (watch_status w' = watch_status w
        \/ transition (watch_status w) (watch_status w')).
Proof.
  intros Hw.
  destruct ev as [w0 | term course fresh | term course | | | j]; simpl;
    try (exists w; split; [exact Hw | left; reflexivity]).
  - unfold submit. destruct (existsb _ _); simpl.
    + exists w. split; [exact Hw | left; reflexivity].
    + exists w. split; [apply lookup_app_l_Some, Hw | left; reflexivity].
  - destruct (providerBlocked e); simpl.
    + exists w. split; [exact Hw | left; reflexivity].
    + rewrite list_lookup_fmap, Hw. simpl. eexists. split; [reflexivity |].
      simpl. apply decide_watch_allowed.
Qed.

Lemma run_rows_terminal evs : forall e i w,
  registry e !! i = Some w -> watch_status w <> active ->
  exists w',
    registry (run_events evs e) !! i = Some w'
    /\ watch_status w' = watch_status w.
Proof.
  induction evs as [| ev evs IH]; intros e i w Hw Hterminal; simpl.
  - exists w. split; [exact Hw | reflexivity].
  - destruct (step_rows e ev i w Hw) as (w1 & Hw1 & [Hsame | [Hactive _]]).
    + destruct (IH (fst (step e ev)) i w1 Hw1) as (w' & Hw' & Hstatus).
      * congruence.
      * exists w'. split; [exact Hw' | congruence].
    + contradiction.
Qed.

(** C7. Every step of the engine (a submission, a listing, a failed fetch,
    the login wall and its end, a failed delivery) keeps every row of the
    registry and either leaves its status or moves it from [active] to
    [notified] or to [deactivated]; so a row that is [notified] or
    [deactivated] keeps that status through every later run, and is never
    [active] again. *)
Theorem C7_watch_status_transitions :
  (forall e ev i w,
      registry e !! i = Some w ->
      exists w',
        registry (fst (step e ev)) !! i = Some w'
        /\ (watch_status w' = watch_status w
            \/ (watch_status w = active
                /\ (watch_status w' = notified
                    \/ watch_status w' = deactivated))))
  /\ (forall evs e i w,
         registry e !! i = Some w ->
         watch_status w = notified \/ watch_status w = deactivated ->
         exists w',
           registry (run_events evs e) !! i = Some w'
           /\ watch_status w' = watch_status w
           /\ watch_status w' <> active).
Proof.
  split.
  - intros e ev i w Hw. apply step_rows, Hw.
  - intros evs e i w Hw Hterminal.
    assert (Hne : watch_status w <> active)
      by (destruct Hterminal as [H | H]; rewrite H; discriminate).
    destruct (run_rows_terminal evs e i w Hw Hne) as (w' & Hw' & Hstatus).
    exists w'. repeat split; [exact Hw' | exact Hstatus | congruence].
Qed.

End RegistryFacts.

(** Scenarios A and B of the specification: an opening notifies the watch
    once, a vanished section deactivates it, and neither moves again. *)
Example C7_scenarios :
  let w1 :=
    {| WatchRegistry.email := "student@mcmaster.ca";
       WatchRegistry.term_id := "3202510";
       WatchRegistry.course_code := "CS101";
       WatchRegistry.section_key := "S1";
       WatchRegistry.watch_status := WatchRegistry.active |} in
  let w2 :=
    {| WatchRegistry.email := "student@mcmaster.ca";
       WatchRegistry.term_id := "3202510";
       WatchRegistry.course_code := "CS101";
       WatchRegistry.section_key := "S2";
       WatchRegistry.watch_status := WatchRegistry.active |} in
  let s1 open :=
    {| WatchRegistry.key := "S1"; WatchRegistry.open_seats := open;
       WatchRegistry.total_seats := 10 |} in
  let s2 open :=
    {| WatchRegistry.key := "S2"; WatchRegistry.open_seats := open;
       WatchRegistry.total_seats := 10 |} in
  let e :=
    WatchRegistry.run_events
      [WatchRegistry.Submit w1; WatchRegistry.Submit w2;
       WatchRegistry.Listing "3202510" "CS101" [s1 0; s2 0]]
      WatchRegistry.initial in
  let e' := WatchRegistry.step e (WatchRegistry.Listing "3202510" "CS101" [s1 3]) in
  map WatchRegistry.watch_status (WatchRegistry.registry e)
  = [WatchRegistry.active; WatchRegistry.active]
  /\ map WatchRegistry.watch_status (WatchRegistry.registry (fst e'))
     = [WatchRegistry.notified; WatchRegistry.deactivated]
  /\ snd e' = [0%nat]
  /\ snd (WatchRegistry.step (fst e')
            (WatchRegistry.Listing "3202510" "CS101" [s1 3; s2 4]))
     = [].
Proof. vm_compute. repeat split. Qed.

(** * Further properties of the client *)

(** ** The pattern of the address check *)

Section RegexFacts.

Import Regex.

Lemma nullable_matches r : nullable r = true <-> matches r "".
Proof.
  split.
  - induction r as [| | c | | r1 IH1 r2 IH2 | r1 IH1 r2 IH2 | r IH]; simpl;
      intros H; try discriminate.
    + constructor.
    + apply andb_true_iff in H as [H1 H2].
      change "" with ("" ++ "")%string. constructor; auto.
    + apply orb_true_iff in H as [H | H];
        [apply MAltL | apply MAltR]; auto.
    + constructor.
  - intros H. remember "" as s eqn:Hs.
    induction H as [| c | c Hc | r1 r2 s1 s2 H1 IH1 H2 IH2 | r1 r2 s H IH
                    | r1 r2 s H IH | r | r s1 s2 H1 IH1 H2 IH2]; simpl;
      try discriminate; try reflexivity.
    + apply append_eq_nil in Hs as [-> ->].
      rewrite IH1, IH2; reflexivity.
    + rewrite IH; [reflexivity | exact Hs].
    + rewrite IH; [apply orb_true_r | exact Hs].
Qed.

Lemma deriv_sound c r : forall s, matches (deriv c r) s -> matches r (String c s).
Proof.
  induction r as [| | d | | r1 IH1 r2 IH2 | r1 IH1 r2 IH2 | r IH]; simpl;
    intros s H.
  - inversion H.
  - inversion H.
  - destruct (Ascii.eqb_spec c d) as [-> | Hne]; inversion H; subst.
    constructor.
  - destruct (JsString.is_space c) eqn:Hc; inversion H; subst.
    constructor. exact Hc.
  - destruct (nullable r1) eqn:Hn.
    + inversion H as [| | | | r1' r2' s' Hl | r1' r2' s' Hr | |]; subst.
      * inversion Hl as [| | | r1' r2' s1 s2 Ha Hb | | | |]; subst.
        rewrite <- append_cons. constructor; auto.
      * rewrite <- (append_nil_l (String c s)). constructor; auto.
        apply nullable_matches, Hn.
    + inversion H as [| | | r1' r2' s1 s2 Ha Hb | | | |]; subst.
      rewrite <- append_cons. constructor; auto.
  - inversion H; subst; [apply MAltL | apply MAltR]; auto.
  - inversion H as [| | | r1' r2' s1 s2 Ha Hb | | | |]; subst.
    rewrite <- append_cons. constructor; auto.
Qed.

Lemma deriv_complete c r t :
  matches r t -> forall s, t = String c s -> matches (deriv c r) s.
Proof.
  intros H.
  induction H as [| d | d Hd | r1 r2 s1 s2 H1 IH1 H2 IH2 | r1 r2 t H IH
                  | r1 r2 t H IH | r | r s1 s2 H1 IH1 H2 IH2];
    intros s Ht; simpl.
  - discriminate.
  - injection Ht as -> <-. rewrite Ascii.eqb_refl. constructor.
  - injection Ht as -> <-. rewrite Hd. constructor.
  - apply append_eq_cons in Ht as [[-> ->] | (s1' & -> & ->)].
    + assert (Hn : nullable r1 = true) by (apply nullable_matches, H1).
      rewrite Hn. apply MAltR. apply IH2. reflexivity.
    + destruct (nullable r1).
      * apply MAltL. constructor; auto.
      * constructor; auto.
  - apply MAltL. auto.
  - apply MAltR. auto.
  - discriminate.
  - apply append_eq_cons in Ht as [[-> ->] | (s1' & -> & ->)].
    + apply (IH2 s). reflexivity.
    + constructor; auto.
Qed.

Lemma deriv_matches c r s : matches (deriv c r) s <-> matches r (String c s).
Proof.
  split; [apply deriv_sound |].
  intros H. eapply deriv_complete; [exact H | reflexivity].
Qed.

Lemma matches_prefix_spec s : forall r,
  matches_prefix r s = true <-> exists m post, s = m ++ post /\ matches r m.
Proof.
  induction s as [| c s IH]; intros r; simpl.
  - rewrite orb_false_r, nullable_matches. split.
    + intros H. exists "", "". split; [reflexivity | exact H].
    + intros (m & post & Hs & Hm). symmetry in Hs.
      apply append_eq_nil in Hs as [-> _]. exact Hm.
  - rewrite orb_true_iff, nullable_matches, IH. split.
    + intros [H | (m & post & -> & Hm)].
      * exists "", (String c s). split; [reflexivity | exact H].
      * exists (String c m), post. split; [reflexivity |].
        apply deriv_matches, Hm.
    + intros (m & post & Hs & Hm). symmetry in Hs.
      apply append_eq_cons in Hs as [[-> _] | (m' & -> & ->)].
      * left. exact Hm.
      * right. exists m', post. split; [reflexivity |].
        apply deriv_matches, Hm.
Qed.

(** [test]: some substring matches. *)
Lemma test_spec r s :
  test r s = true <-> exists pre m post, s = pre ++ m ++ post /\ matches r m.
Proof.
  induction s as [| c s IH]; simpl.
  - rewrite !orb_false_r, nullable_matches. split.
    + intros H. exists "", "", "". split; [reflexivity | exact H].
    + intros (pre & m & post & Hs & Hm). symmetry in Hs.
      apply append_eq_nil in Hs as [_ Hs].
      apply append_eq_nil in Hs as [-> _]. exact Hm.
  - rewrite orb_true_iff, IH.
    change (nullable r || matches_prefix (deriv c r) s)
      with (matches_prefix r (String c s)).
    rewrite matches_prefix_spec. split.
    + intros [(m & post & Hs & Hm) | (pre & m & post & -> & Hm)].
      * exists "", m, post. split; [exact Hs | exact Hm].
      * exists (String c pre), m, post. split; [reflexivity | exact Hm].
    + intros (pre & m & post & Hs & Hm).
      destruct pre as [| d pre].
      * left. exists m, post. split; [exact Hs | exact Hm].
      * rewrite append_cons in Hs. injection Hs as <- ->.
        right. exists pre, m, post. split; [reflexivity | exact Hm].
Qed.

Lemma all_nonspace_app (s t : string) :
  JsString.all_nonspace (s ++ t)
  = JsString.all_nonspace s && JsString.all_nonspace t.
Proof.
  induction s as [| c s IH]; [reflexivity |].
  rewrite append_cons. simpl. rewrite IH. apply andb_assoc.
Qed.

Lemma has_nonspace_app (s t : string) :
  JsString.has_nonspace (s ++ t)
  = JsString.has_nonspace s || JsString.has_nonspace t.
Proof.
  induction s as [| c s IH]; [reflexivity |].
  rewrite append_cons. simpl. rewrite IH. apply orb_assoc.
Qed.

Lemma word_has_nonspace s : JsString.word s -> JsString.has_nonspace s = true.
Proof.
  intros [Hne Hall]. destruct s as [| c s]; [congruence |].
  simpl in *. apply andb_true_iff in Hall as [-> _]. reflexivity.
Qed.

Lemma star_nonspace s :
  matches (Star NonSpace) s <-> JsString.all_nonspace s = true.
Proof.
  split.
  - intros H. remember (Star NonSpace) as r eqn:Hr.
    induction H as [| c | c Hc | r1 r2 s1 s2 H1 IH1 H2 IH2 | r1 r2 s H IH
                    | r1 r2 s H IH | r | r s1 s2 H1 IH1 H2 IH2];
      try discriminate; [reflexivity |].
    injection Hr as ->. rewrite all_nonspace_app, IH2 by reflexivity.
    inversion H1 as [| | c Hc | | | | |]; subst. simpl. rewrite Hc. reflexivity.
  - induction s as [| c s IH]; simpl; intros H; [constructor |].
    apply andb_true_iff in H as [Hc Hs].
    change (String c s) with (String c "" ++ s).
    constructor; [| apply IH, Hs].
    constructor. destruct (JsString.is_space c); [discriminate | reflexivity].
Qed.

Lemma plus_nonspace s : matches (Plus NonSpace) s <-> JsString.word s.
Proof.
  unfold Plus, JsString.word. split.
  - intros H. inversion H as [| | | r1 r2 s1 s2 H1 H2 | | | |]; subst.
    inversion H1 as [| | c Hc | | | | |]; subst.
    apply star_nonspace in H2.
    change (String c "" ++ s2) with (String c s2). simpl.
    rewrite Hc, H2. split; [discriminate | reflexivity].
  - intros [Hne Hall]. destruct s as [| c s]; [congruence |].
    simpl in Hall. apply andb_true_iff in Hall as [Hc Hs].
    change (String c s) with (String c "" ++ s).
    constructor; [| apply star_nonspace, Hs].
    constructor. destruct (JsString.is_space c); [discriminate | reflexivity].
Qed.

(** What the pattern matches as a whole: word, at sign, word, dot, word. *)
Lemma email_pattern_matches m :
  matches email_pattern m
  <-> exists a b c,
        m = a ++ "@" ++ b ++ "." ++ c
        /\ JsString.word a /\ JsString.word b /\ JsString.word c.
Proof.
  unfold email_pattern. split.
  - intros H.
    inversion H as [| | | r1 r2 a s1 Ha H1 | | | |]; subst.
    inversion H1 as [| | | r1 r2 at_ s2 Hat H2 | | | |]; subst.
    inversion H2 as [| | | r1 r2 b s3 Hb H3 | | | |]; subst.
    inversion H3 as [| | | r1 r2 dot c Hdot Hc | | | |]; subst.
    inversion Hat; subst. inversion Hdot; subst.
    exists a, b, c. rewrite <- !plus_nonspace. auto.
  - intros (a & b & c & -> & Ha & Hb & Hc).
    apply plus_nonspace in Ha, Hb, Hc.
    repeat (constructor; try assumption).
Qed.

Lemma rev_app_has_nonspace (s t : string) :
  JsString.has_nonspace (String.rev_app s t)
  = JsString.has_nonspace s || JsString.has_nonspace t.
Proof.
  revert t. induction s as [| c s IH]; intros t; simpl; [reflexivity |].
  rewrite IH. simpl.
  destruct (JsString.is_space c), (JsString.has_nonspace s),
    (JsString.has_nonspace t); reflexivity.
Qed.

Lemma trimStart_has_nonspace s :
  JsString.has_nonspace (JsString.trimStart s) = JsString.has_nonspace s.
Proof.
  induction s as [| c s IH]; simpl; [reflexivity |].
  destruct (JsString.is_space c) eqn:Hc; simpl; [exact IH |].
  rewrite Hc. reflexivity.
Qed.

Lemma trimStart_empty s :
  JsString.trimStart s = "" <-> JsString.has_nonspace s = false.
Proof.
  induction s as [| c s IH]; simpl; [tauto |].
  destruct (JsString.is_space c); simpl; [exact IH |].
  split; discriminate.
Qed.

(** [trim] leaves nothing exactly when every code unit is white space. *)
Lemma trim_empty s : JsString.trim s = "" <-> JsString.has_nonspace s = false.
Proof.
  unfold JsString.trim, JsString.trimEnd, String.rev.
  assert (Hsame :
            JsString.has_nonspace
              (String.rev_app
                 (JsString.trimStart
                    (String.rev_app (JsString.trimStart s) "")) "")
            = JsString.has_nonspace s).
  { rewrite rev_app_has_nonspace, trimStart_has_nonspace,
      rev_app_has_nonspace, trimStart_has_nonspace. simpl.
    rewrite !orb_false_r. reflexivity. }
  split.
  - intros H. rewrite H in Hsame. simpl in Hsame. congruence.
  - intros H.
    apply trimStart_empty in H. rewrite H. reflexivity.
Qed.

(** The strings the address check accepts: those that hold, somewhere, a
    word, an at sign, a word, a dot and a word, a word being a non-empty
    run of code units that are not white space. The test on the trimmed
    address rejects nothing the pattern accepts. *)
Theorem valid_email_accepts : forall email,
  valid_email email = Regex.test Regex.email_pattern email
  /\ (valid_email email = true
      <-> exists pre a b c post,
            email = pre ++ a ++ "@" ++ b ++ "." ++ c ++ post
            /\ JsString.word a /\ JsString.word b /\ JsString.word c).
Proof.
  intros email.
  assert (Hspec :
            Regex.test Regex.email_pattern email = true
            <-> exists pre a b c post,
                  email = pre ++ a ++ "@" ++ b ++ "." ++ c ++ post
                  /\ JsString.word a /\ JsString.word b /\ JsString.word c).
  { rewrite test_spec. split.
    - intros (pre & m & post & -> & Hm).
      apply email_pattern_matches in Hm as (a & b & c & -> & Ha & Hb & Hc).
      exists pre, a, b, c, post. rewrite !append_assoc. auto.
    - intros (pre & a & b & c & post & -> & Ha & Hb & Hc).
      exists pre, (a ++ "@" ++ b ++ "." ++ c), post.
      split; [rewrite !append_assoc; reflexivity |].
      apply email_pattern_matches. eauto 10. }
  assert (Hsame : valid_email email = Regex.test Regex.email_pattern email).
  { unfold valid_email.
    destruct (Regex.test Regex.email_pattern email) eqn:Htest;
      [| apply andb_false_r].
    rewrite andb_true_r.
    destruct Hspec as [Hspec _].
    destruct (Hspec eq_refl) as (pre & a & b & c & post & -> & Ha & _).
    destruct (String.eqb_spec (JsString.trim (pre ++ a ++ "@" ++ b ++ "." ++ c ++ post)) "")
      as [Htrim | Htrim]; [| reflexivity].
    apply trim_empty in Htrim.
    rewrite !has_nonspace_app, (word_has_nonspace a Ha) in Htrim.
    rewrite orb_true_r in Htrim. discriminate. }
  split; [exact Hsame |]. rewrite Hsame. exact Hspec.
Qed.

End RegexFacts.

(** ** The GET functions (services/api.ts) *)

Section GetFacts.

Variable base : string.

Lemma handleResponse_resolves response v :
  Api.handleResponse response = Resolved v ->
  ok response = true /\ body response = Json v.
Proof.
  unfold Api.handleResponse.
  destruct (ok response); simpl.
  - unfold response_json. destruct (body response) as [j | m]; [| discriminate].
    intros [= ->]. split; reflexivity.
  - destruct (get_error _) as [e | t]; simpl; [| discriminate].
    destruct (Error_message _) as [message | t]; discriminate.
Qed.

(** [getApiHealth], [getTerms], [getCourses] and [getCourseDetails] resolve
    only with what the server sent: the JSON body of an OK response, or,
    for the last two, the empty value on a 404. On any other status and on
    a failed fetch they reject. *)
Theorem api_get_resolves_only_on_ok :
  forall (net : Request -> outcome Response),
    (forall v,
        run net (Api.getApiHealth base) = Resolved v ->
        exists response,
          net (Api.GET (base ++ "/health")) = Resolved response
          /\ ok response = true /\ body response = Json v)
    /\ (forall v,
           run net (Api.getTerms base) = Resolved v ->
           exists response,
             net (Api.GET (base ++ "/terms")) = Resolved response
             /\ ok response = true /\ body response = Json v)
    /\ (forall termId v,
           run net (Api.getCourses base termId) = Resolved v ->
           exists response,
             net (Api.GET (base ++ "/terms/" ++ termId ++ "/courses"))
             = Resolved response
             /\ ((status response = 404%Z /\ v = JArr [])
                 \/ (ok response = true /\ body response = Json v)))
    /\ (forall termId courseCode v,
           run net (Api.getCourseDetails base termId courseCode) = Resolved v ->
           exists response,
             net (Api.GET (base ++ "/terms/" ++ termId ++ "/courses/"
                             ++ encodeURIComponent courseCode))
             = Resolved response
             /\ ((status response = 404%Z /\ v = JObj [])
                 \/ (ok response = true /\ body response = Json v))).
Proof.
  intros net. repeat apply conj.
  - intros v. unfold Api.getApiHealth. simpl run.
    destruct (net _) as [response | t]; simpl; [| discriminate].
    intros H. exists response. split; [reflexivity |].
    apply handleResponse_resolves, H.
  - intros v. unfold Api.getTerms. simpl run.
    destruct (net _) as [response | t]; simpl; [| discriminate].
    intros H. exists response. split; [reflexivity |].
    apply handleResponse_resolves, H.
  - intros termId v. unfold Api.getCourses. simpl run.
    destruct (net _) as [response | t]; simpl; [| discriminate].
    intros H. exists response. split; [reflexivity |].
    destruct (Z.eqb_spec (status response) 404) as [H404 | Hne].
    + left. injection H as <-. split; [exact H404 | reflexivity].
    + right. apply handleResponse_resolves, H.
  - intros termId courseCode v. unfold Api.getCourseDetails. simpl run.
    destruct (net _) as [response | t]; simpl; [| discriminate].
    intros H. exists response. split; [reflexivity |].
    destruct (Z.eqb_spec (status response) 404) as [H404 | Hne].
    + left. injection H as <-. split; [exact H404 | reflexivity].
    + right. apply handleResponse_resolves, H.
Qed.

End GetFacts.

(** ** The URL of a course *)

Section UrlFacts.

(** The text of one code unit, read back. *)
Lemma read_encoded_cons c s :
  read_encoded (encodeURIComponent (String c s))
  = Some (c, encodeURIComponent s).
Proof.
  destruct c as [[] [] [] [] [] [] [] []]; reflexivity.
Qed.

Lemma encodeURIComponent_inj a : forall b,
  encodeURIComponent a = encodeURIComponent b -> a = b.
Proof.
  induction a as [| c a IH]; intros [| d b] H.
  - reflexivity.
  - apply (f_equal read_encoded) in H.
    rewrite read_encoded_cons in H. discriminate H.
  - apply (f_equal read_encoded) in H.
    rewrite read_encoded_cons in H. discriminate H.
  - apply (f_equal read_encoded) in H.
    rewrite !read_encoded_cons in H. injection H as -> H.
    f_equal. apply IH, H.
Qed.

Lemma encodeURIComponent_cons c s :
  encodeURIComponent (String c s)
  = encodeURIComponent (String c "") ++ encodeURIComponent s.
Proof.
  destruct c as [[] [] [] [] [] [] [] []]; reflexivity.
Qed.

Lemma encodeURIComponent_safe s :
  string_forall uri_safe (encodeURIComponent s) = true.
Proof.
  induction s as [| c s IH]; [reflexivity |].
  rewrite encodeURIComponent_cons, string_forall_app, IH, andb_true_r.
  destruct c as [[] [] [] [] [] [] [] []]; reflexivity.
Qed.

Lemma string_forall_In p (s : string) c :
  string_forall p s = true -> In c (list_ascii_of_string s) -> p c = true.
Proof.
  induction s as [| d s IH]; simpl; [intros _ [] |].
  intros H [-> | Hin]; apply andb_true_iff in H as [Hd Hs];
    [exact Hd | apply IH; assumption].
Qed.

(** [getCourseDetails] asks for one URL, in which the course code is
    percent-encoded: the encoded code holds unreserved characters and
    percent signs only, so no slash, question mark, hash sign or space of
    the code reaches the path, and two course codes of a term have the same
    URL only if they are the same code. *)
Theorem getCourseDetails_url :
  forall (base termId : string) (net : Request -> outcome Response),
    (forall courseCode,
        issued net (Api.getCourseDetails base termId courseCode)
        = [Api.GET (base ++ "/terms/" ++ termId ++ "/courses/"
                      ++ encodeURIComponent courseCode)])
    /\ (forall courseCode c,
           In c (list_ascii_of_string (encodeURIComponent courseCode)) ->
           uri_safe c = true
           /\ c <> "/"%char /\ c <> "?"%char /\ c <> "#"%char
           /\ c <> " "%char /\ c <> "&"%char)
    /\ (forall a b,
           issued net (Api.getCourseDetails base termId a)
           = issued net (Api.getCourseDetails base termId b) ->
           a = b).
Proof.
  intros base termId net. split; [| split].
  - intros courseCode. reflexivity.
  - intros courseCode c Hin.
    pose proof (string_forall_In uri_safe _ c
                  (encodeURIComponent_safe courseCode) Hin) as Hsafe.
    split; [exact Hsafe |].
    repeat split; intros ->; discriminate Hsafe.
  - intros a b H. simpl in H. injection H as H.
    apply encodeURIComponent_inj.
    do 4 apply append_inj_l in H. exact H.
Qed.

End UrlFacts.

(** ** One watch request at a time *)

Section FlightFacts.

Import Api Context Sections Display.

Variable base : string.

Lemma sent_app (a b : list Effect) : sent (a ++ b)%list = (sent a ++ sent b)%list.
Proof. unfold sent. apply omap_app. Qed.

Lemma settled_sends_nothing out st : sent (snd (settled out st)) = [].
Proof.
  unfold settled. destruct out as [response | err]; [| reflexivity].
  destruct (get response "message"); reflexivity.
Qed.

Lemma settled_mutation out st :
  mutation (fst (settled out st)) = mutation st.
Proof.
  unfold settled. destruct out as [response | err]; [| reflexivity].
  destruct (get response "message"); reflexivity.
Qed.

(** A step while a request waits sends nothing. *)
Lemma step_pending_silent st ev :
  consistent st -> isPending st = true -> sent (snd (step base st ev)) = [].
Proof.
  intros Hst Hpending.
  destruct (sent (snd (step base st ev))) as [| req l] eqn:Hsent;
    [reflexivity |].
  destruct (step_sends base st ev req Hst) as (_ & _ & Hfree & _).
  - rewrite Hsent. left. reflexivity.
  - congruence.
Qed.

(** A step that sends sends one request and leaves it waiting. *)
Lemma step_send_waits st ev req :
  consistent st ->
  In req (sent (snd (step base st ev))) ->
  sent (snd (step base st ev)) = [req]
  /\ isPending st = false
  /\ isPending (fst (step base st ev)) = true.
Proof.
  intros Hst Hreq.
  destruct (step_sends base st ev req Hst Hreq)
    as (-> & Hvalid & Hfree & s & Hs & _).
  simpl in Hreq |- *. unfold handleSubmit in Hreq |- *.
  rewrite Hvalid, Hfree, Hs in Hreq |- *. simpl in Hreq |- *.
  unfold handleWatchSubmit in Hreq |- *. rewrite Hs in Hreq |- *.
  destruct (_ || _); simpl in Hreq; [contradiction |].
  unfold mutate, Api.addWatchRequest in Hreq |- *. simpl in Hreq |- *.
  destruct Hreq as [<- | []]. repeat split.
Qed.

(** The settlement of [fetch] ends the wait. *)
Lemma step_settlement_frees st r :
  consistent st -> isPending (fst (step base st (FetchSettled r))) = false.
Proof.
  intros (_ & _ & Hk). simpl. unfold isPending.
  destruct (mutation st) as [k |] eqn:Hm.
  - destruct (Hk k eq_refl r) as (out & ->).
    rewrite settled_mutation. reflexivity.
  - simpl. rewrite Hm. reflexivity.
Qed.

Lemma setIsWatchDialogOpen_mutation open st :
  mutation (setIsWatchDialogOpen open st) = mutation st.
Proof. unfold setIsWatchDialogOpen. destruct (_ && _); reflexivity. Qed.

(** A wait goes on until [fetch] settles. *)
Lemma step_keeps_waiting st ev :
  is_settlement ev = false -> isPending st = true ->
  isPending (fst (step base st ev)) = true.
Proof.
  intros Hev Hpending.
  destruct ev as [q | t | c | v | b r | open | | text | | r];
    try discriminate Hev; try exact Hpending.
  - simpl.
    destruct (render st) as [| | | | blocks]; try exact Hpending.
    destruct (blocks !! b) as [[blockType rows] |]; [| exact Hpending].
    destruct (rows !! r) as [row |]; [| exact Hpending].
    destruct (watch_disabled row); [exact Hpending |].
    unfold isPending, handleWatchClick in *. simpl fst.
    rewrite setIsWatchDialogOpen_mutation. exact Hpending.
  - unfold isPending in *. simpl fst.
    rewrite setIsWatchDialogOpen_mutation. exact Hpending.
  - simpl. unfold handleSubmit. rewrite Hpending, orb_true_r. exact Hpending.
Qed.

Lemma step_flight st ev :
  consistent st ->
  (length (sent (snd (step base st ev))) + waiting st
   <= (if is_settlement ev then 1 else 0) + waiting (fst (step base st ev)))%nat.
Proof.
  intros Hst. unfold waiting.
  destruct (sent (snd (step base st ev))) as [| req l] eqn:Hsent.
  - destruct (isPending st) eqn:Hpending; simpl; [| lia].
    destruct (is_settlement ev) eqn:Hev; [lia |].
    rewrite (step_keeps_waiting st ev Hev Hpending). lia.
  - destruct (step_send_waits st ev req Hst) as (Hone & Hfree & Hwait).
    + rewrite Hsent. left. reflexivity.
    + rewrite Hsent in Hone. injection Hone as ->.
      rewrite Hfree, Hwait. simpl. lia.
Qed.

Lemma run_events_flight evs : forall st,
  consistent st ->
  (length (sent (snd (run_events base evs st))) + waiting st
   <= settlements evs + waiting (fst (run_events base evs st)))%nat.
Proof.
  induction evs as [| ev evs IH]; intros st Hst.
  - simpl. lia.
  - pose proof (step_flight st ev Hst) as Hstep.
    pose proof (step_consistent base st ev Hst) as Hnext.
    simpl. destruct (step base st ev) as [st1 effs1]. simpl in Hstep, Hnext.
    specialize (IH st1 Hnext).
    destruct (run_events base evs st1) as [st2 effs2]. simpl in IH |- *.
    rewrite sent_app, length_app. unfold settlements in *. simpl.
    destruct (is_settlement ev); simpl; lia.
Qed.

(** In every state CourseDetailsDisplay reaches: while a watch request
    waits for its answer no event sends another; an event that sends a
    request sends one, and the request waits afterwards; the settlement of
    [fetch] ends the wait. So the requests sent in a run are at most the
    settlements of the run and the one still waiting. *)
Theorem one_watch_request_in_flight : forall evs,
  let st := state_after base evs in
  (forall ev, isPending st = true -> sent (snd (step base st ev)) = [])
  /\ (forall ev req,
         In req (sent (snd (step base st ev))) ->
         sent (snd (step base st ev)) = [req]
         /\ isPending st = false
         /\ isPending (fst (step base st ev)) = true)
  /\ (forall r, isPending (fst (step base st (FetchSettled r))) = false)
  /\ (length (sent (snd (run_events base evs initial)))
      <= settlements evs + (if isPending st then 1 else 0))%nat.
Proof.
  intros evs st.
  pose proof (state_after_consistent base evs) as Hst. fold st in Hst.
  split; [| split; [| split]].
  - intros ev. apply step_pending_silent, Hst.
  - intros ev req. apply step_send_waits, Hst.
  - intros r. apply step_settlement_frees, Hst.
  - assert (Hinit : consistent initial).
    { repeat split; simpl; try discriminate. }
    pose proof (run_events_flight evs initial Hinit) as H.
    unfold waiting in H. simpl in H. unfold st, state_after. lia.
Qed.

End FlightFacts.

Section AppFlightFacts.

Import Api0 App.

Variable base : string.

Lemma promise_settled_sends_nothing out st :
  sent (snd (promise_settled out st)) = [].
Proof. unfold promise_settled. destruct (promise_body out); reflexivity. Qed.

Lemma promise_settled_frees out st :
  isSubmittingWatch (fst (promise_settled out st)) = false
  /\ request (fst (promise_settled out st)) = None.
Proof.
  unfold promise_settled. destruct (promise_body out); split; reflexivity.
Qed.

Lemma handleWatchSubmit_flag st :
  submitting_while_waiting st ->
  submitting_while_waiting (fst (handleWatchSubmit base st)).
Proof.
  intros Hst. unfold handleWatchSubmit.
  destruct (_ || _); [exact Hst |].
  destruct (negb _); [exact Hst |].
  destruct (watchSection st); [| exact Hst].
  destruct (_ || _); [exact Hst |].
  reflexivity.
Qed.

Lemma app_step_flag st ev :
  consistent st -> submitting_while_waiting st ->
  submitting_while_waiting (fst (step base st ev)).
Proof.
  intros (_ & Hk) Hst.
  destruct ev as [t | c | d | b r | open | text | | r]; simpl.
  - destruct (String.eqb t (selectedTerm st)); exact Hst.
  - destruct (String.eqb c (selectedCourse st)); exact Hst.
  - exact Hst.
  - destruct (renderCourseDetails st) as [| | | blocks]; try exact Hst.
    destruct (blocks !! b) as [[blockType rows] |]; [| exact Hst].
    destruct (rows !! r) as [row |]; [| exact Hst].
    destruct (watch_disabled row); exact Hst.
  - exact Hst.
  - exact Hst.
  - destruct (submit_button_disabled st); [exact Hst |].
    apply handleWatchSubmit_flag, Hst.
  - destruct (request st) as [k |] eqn:Hrequest; [| exact Hst].
    destruct (Hk k eq_refl r) as (out & ->).
    destruct (promise_settled_frees out st) as [Hflag Hnone].
    unfold submitting_while_waiting. rewrite Hflag, Hnone. reflexivity.
Qed.

Lemma app_run_events_flag evs : forall st,
  consistent st -> submitting_while_waiting st ->
  submitting_while_waiting (fst (run_events base evs st)).
Proof.
  induction evs as [| ev evs IH]; intros st Hst Hflag; simpl.
  - exact Hflag.
  - pose proof (app_step_consistent base st ev Hst) as Hstep.
    pose proof (app_step_flag st ev Hst Hflag) as Hstepflag.
    destruct (step base st ev) as [st1 effs1]. simpl in Hstep, Hstepflag.
    specialize (IH st1 Hstep Hstepflag).
    destruct (run_events base evs st1) as [st2 effs2]. exact IH.
Qed.

(** A step while the flag is set sends nothing. *)
Lemma app_step_submitting_silent st ev :
  consistent st -> isSubmittingWatch st = true ->
  sent (snd (step base st ev)) = [].
Proof.
  intros Hst Hflag.
  destruct (sent (snd (step base st ev))) as [| req l] eqn:Hsent;
    [reflexivity |].
  destruct (app_step_sends base st ev req Hst) as (-> & _).
  - rewrite Hsent. left. reflexivity.
  - simpl in Hsent. unfold submit_button_disabled in Hsent.
    rewrite Hflag in Hsent. discriminate Hsent.
Qed.

(** A step that sends sends one request and sets the flag. *)
Lemma app_step_send_waits st ev req :
  consistent st ->
  In req (sent (snd (step base st ev))) ->
  sent (snd (step base st ev)) = [req]
  /\ isSubmittingWatch st = false
  /\ isSubmittingWatch (fst (step base st ev)) = true
  /\ defined (request (fst (step base st ev))) = true.
Proof.
  intros Hst Hreq.
  destruct (app_step_sends base st ev req Hst Hreq) as (-> & _).
  simpl in Hreq |- *.
  destruct (submit_button_disabled st) eqn:Hdisabled; [contradiction |].
  unfold submit_button_disabled in Hdisabled.
  apply orb_false_iff in Hdisabled as [Hdisabled _].
  apply orb_false_iff in Hdisabled as [Hflag _].
  unfold handleWatchSubmit in Hreq |- *.
  destruct (_ || _); simpl in Hreq; [contradiction |].
  destruct (negb _); simpl in Hreq; [contradiction |].
  destruct (watchSection st) as [s |]; simpl in Hreq; [| contradiction].
  destruct (_ || _); simpl in Hreq; [contradiction |].
  destruct Hreq as [<- | []]. repeat split. exact Hflag.
Qed.

Lemma app_step_keeps_waiting st ev :
  is_settlement ev = false -> waiting st = 1%nat ->
  waiting (fst (step base st ev)) = 1%nat.
Proof.
  intros Hev Hwait. unfold waiting in *.
  destruct ev as [t | c | d | b r | open | text | | r];
    try discriminate Hev; simpl.
  - destruct (String.eqb t (selectedTerm st)); exact Hwait.
  - destruct (String.eqb c (selectedCourse st)); exact Hwait.
  - exact Hwait.
  - destruct (renderCourseDetails st) as [| | | blocks]; try exact Hwait.
    destruct (blocks !! b) as [[blockType rows] |]; [| exact Hwait].
    destruct (rows !! r) as [row |]; [| exact Hwait].
    destruct (watch_disabled row); exact Hwait.
  - exact Hwait.
  - exact Hwait.
  - destruct (submit_button_disabled st); [exact Hwait |].
    unfold handleWatchSubmit.
    destruct (_ || _); [exact Hwait |].
    destruct (negb _); [exact Hwait |].
    destruct (watchSection st); [| exact Hwait].
    destruct (_ || _); [exact Hwait |].
    reflexivity.
Qed.

Lemma app_step_flight st ev :
  consistent st -> submitting_while_waiting st ->
  (length (sent (snd (step base st ev))) + waiting st
   <= (if is_settlement ev then 1 else 0) + waiting (fst (step base st ev)))%nat.
Proof.
  intros Hst Hflag.
  destruct (sent (snd (step base st ev))) as [| req l] eqn:Hsent.
  - destruct (is_settlement ev) eqn:Hev.
    + unfold waiting. destruct (defined (request st));
        destruct (defined _); simpl; lia.
    + assert (Hcases : waiting st = 0%nat \/ waiting st = 1%nat).
      { unfold waiting. destruct (defined (request st)); auto. }
      destruct Hcases as [H0 | H1].
      * rewrite H0. simpl. lia.
      * rewrite (app_step_keeps_waiting st ev Hev H1), H1. simpl. lia.
  - destruct (app_step_send_waits st ev req Hst)
      as (Hone & Hfree & _ & Hwait).
    + rewrite Hsent. left. reflexivity.
    + rewrite Hsent in Hone. injection Hone as ->.
      unfold waiting. rewrite Hwait.
      red in Hflag. rewrite Hfree in Hflag. rewrite <- Hflag. simpl. lia.
Qed.

Lemma app_run_events_flight evs : forall st,
  consistent st -> submitting_while_waiting st ->
  (length (sent (snd (run_events base evs st))) + waiting st
   <= settlements evs + waiting (fst (run_events base evs st)))%nat.
Proof.
  induction evs as [| ev evs IH]; intros st Hst Hflag.
  - simpl. lia.
  - pose proof (app_step_flight st ev Hst Hflag) as Hstep.
    pose proof (app_step_consistent base st ev Hst) as Hnext.
    pose proof (app_step_flag st ev Hst Hflag) as Hnextflag.
    simpl. destruct (step base st ev) as [st1 effs1].
    simpl in Hstep, Hnext, Hnextflag.
    specialize (IH st1 Hnext Hnextflag).
    destruct (run_events base evs st1) as [st2 effs2]. simpl in IH |- *.
    rewrite sent_app, length_app. unfold settlements in *. simpl.
    destruct (is_settlement ev); simpl; lia.
Qed.

(** In every state the one-component App reaches: [isSubmittingWatch] is
    set exactly while the promise of [handleWatchSubmit] waits; while it is
    set no event sends a request; an event that sends a request sends one
    and sets the flag; the settlement of [fetch] clears it. So the requests
    sent in a run are at most the settlements of the run and the one still
    waiting. *)
Theorem app_submits_one_at_a_time : forall evs,
  let st := state_after base evs in
  isSubmittingWatch st = defined (request st)
  /\ (forall ev, isSubmittingWatch st = true ->
                 sent (snd (step base st ev)) = [])
  /\ (forall ev req,
         In req (sent (snd (step base st ev))) ->
         sent (snd (step base st ev)) = [req]
         /\ isSubmittingWatch st = false
         /\ isSubmittingWatch (fst (step base st ev)) = true)
  /\ (forall r, isSubmittingWatch (fst (step base st (FetchSettled r))) = false)
  /\ (length (sent (snd (run_events base evs initial)))
      <= settlements evs + (if isSubmittingWatch st then 1 else 0))%nat.
Proof.
  intros evs st.
  assert (Hinit : consistent initial) by (split; simpl; discriminate).
  assert (Hinitflag : submitting_while_waiting initial) by reflexivity.
  pose proof (app_state_after_consistent base evs) as Hst. fold st in Hst.
  pose proof (app_run_events_flag evs initial Hinit Hinitflag) as Hflag.
  change (submitting_while_waiting st) in Hflag.
  split; [exact Hflag | split; [| split; [| split]]].
  - intros ev. apply app_step_submitting_silent, Hst.
  - intros ev req Hreq.
    destruct (app_step_send_waits st ev req Hst Hreq) as (H1 & H2 & H3 & _).
    auto.
  - intros r.
    pose proof (app_step_flag st (FetchSettled r) Hst Hflag) as Hnext.
    red in Hnext. rewrite Hnext. simpl.
    destruct Hst as (_ & Hk).
    destruct (request st) as [k |] eqn:Hrequest; [| simpl; rewrite Hrequest; reflexivity].
    destruct (Hk k eq_refl r) as (out & ->).
    destruct (promise_settled_frees out st) as [_ ->]. reflexivity.
  - pose proof (app_run_events_flight evs initial Hinit Hinitflag) as H.
    red in Hflag. rewrite Hflag.
    unfold waiting in H. simpl in H. unfold st, state_after. lia.
Qed.

End AppFlightFacts.

(** ** The answer to a watch request *)

Section SettlementFacts.

Import Api Context Sections Display.

Variable base : string.

(** A submit that sends leaves the mutation waiting; the settlement of its
    fetch then runs the callbacks on the state before the submit. *)
Lemma settle_after_submit st req :
  In req (sent (snd (step base st SubmitForm))) ->
  exists payload,
    forall r,
      step base (fst (step base st SubmitForm)) (FetchSettled r)
      = settled (run (fun _ => r) (Api.addWatchRequest base payload)) st.
Proof.
  intros Hreq. simpl in Hreq |- *. unfold handleSubmit in Hreq |- *.
  destruct (isValidEmail st); simpl in Hreq; [| contradiction].
  destruct (isPending st) eqn:Hpending; simpl in Hreq; [contradiction |].
  destruct (watchSection st) as [s |] eqn:Hs; simpl in Hreq; [| contradiction].
  simpl. unfold handleWatchSubmit in Hreq |- *. rewrite Hs in Hreq |- *.
  destruct (_ || _); simpl in Hreq; [contradiction |].
  exists (JObj [("email", JStr (email st));
                ("term_id", JStr (selectedTerm (selection st)));
                ("course_code", JStr (selectedCourse (selection st)));
                ("section_key", JStr (key s))]).
  intros r. unfold mutate, Api.addWatchRequest. simpl.
  replace (with_mutation None (with_mutation _ st)) with st; [reflexivity |].
  unfold isPending in Hpending. destruct st as [? ? ? ? [k |] ? ? ?];
    simpl in *; [discriminate | reflexivity].
Qed.

(** What the user sees of the answer to a watch request sent from the
    dialog of CourseDetailsDisplay. When fetch fails, or the response is
    not OK, the toast reads Submission Failed and the component is in the
    state it had before the submit, dialog and address included, so that
    the form can be submitted again; the description is the [error] text of
    the server when the body has one. On an OK response with an object as
    body, the toast shows the [message] of the server or the standard text,
    the dialog is closed and the section forgotten. *)
Theorem watch_request_answer : forall st req,
  In req (sent (snd (step base st SubmitForm))) ->
  let st1 := fst (step base st SubmitForm) in
  (forall r,
      match r with
      | Rejected _ => True
      | Resolved response => ok response = false
      end ->
      exists description,
        step base st1 (FetchSettled r)
        = (st, [Toast ToastError "Submission Failed" (Some description)]))
  /\ (forall response ms m,
         ok response = false ->
         body response = Json (JObj ms) ->
         member "error" ms = Some (JStr m) -> m <> "" ->
         step base st1 (FetchSettled (Resolved response))
         = (st, [Toast ToastError "Submission Failed" (Some m)]))
  /\ (forall response ms,
         ok response = true ->
         body response = Json (JObj ms) ->
         step base st1 (FetchSettled (Resolved response))
         = (setWatchSection None (setIsWatchDialogOpen false st),
            [Toast ToastSuccess
               (ToString
                  (or_string (member "message" ms)
                     "Watch request submitted successfully!"))
               None])).
Proof.
  intros st req Hreq st1.
  destruct (settle_after_submit st req Hreq) as (payload & Hsettle).
  subst st1. split; [| split].
  - intros r Hr. rewrite Hsettle.
    unfold Api.addWatchRequest. simpl run.
    destruct r as [response | [e | v]]; simpl.
    + rewrite Hr. simpl.
      destruct (get_error _) as [e | [e | v]]; simpl; eauto.
      destruct (Error_message _) as [message | [e' | v]]; simpl; eauto.
    + eauto.
    + eauto.
  - intros response ms m Hok Hbody Hm Hne. rewrite Hsettle.
    unfold Api.addWatchRequest. simpl run. simpl mbind. unfold outcome_bind.
    rewrite Hok. simpl negb. cbv iota.
    unfold response_json, get_error. rewrite Hbody. simpl. rewrite Hm.
    unfold or_string. simpl.
    destruct m; [congruence | reflexivity].
  - intros response ms Hok Hbody. rewrite Hsettle.
    unfold Api.addWatchRequest. simpl run. simpl mbind. unfold outcome_bind.
    rewrite Hok. simpl negb. cbv iota.
    unfold response_json. rewrite Hbody. reflexivity.
Qed.

End SettlementFacts.

(** A 409 with the message of the server, after a submit from the dialog. *)
Lemma watch_request_answer_witness :
  let section :=
    {| Api.block_type := "LEC"; Api.key := "1234"; Api.open_seats := 0;
       Api.total_seats := 90; Api.section := "C01" |} in
  let st :=
    {| Display.selection :=
         {| Context.selectedTerm := "3202510";
            Context.selectedCourse := "COMPSCI 1JC3" |};
       Display.query := Display.query Display.initial;
       Display.watchSection := Some section;
       Display.isWatchDialogOpen := true;
       Display.mutation := None;
       Display.email := "student@mcmaster.ca";
       Display.isValidEmail := true;
       Display.stored_email := None |} in
  let conflict :=
    {| status := 409; statusText := "CONFLICT";
       body := Json (JObj [("error", JStr "Already watching this section")]) |} in
  Display.step "https://api"
    (fst (Display.step "https://api" st Display.SubmitForm))
    (Display.FetchSettled (Resolved conflict))
  = (st, [Toast ToastError "Submission Failed"
            (Some "Already watching this section")]).
Proof.
  intros section st conflict.
  destruct (watch_request_answer "https://api" st
              (Api.POST_json "https://api/watch"
                 (stringify
                    (JObj [("email", JStr "student@mcmaster.ca");
                           ("term_id", JStr "3202510");
                           ("course_code", JStr "COMPSCI 1JC3");
                           ("section_key", JStr "1234")]))))
    as (_ & Hserver & _).
  - left. reflexivity.
  - apply (Hserver conflict
             [("error", JStr "Already watching this section")]
             "Already watching this section").
    + reflexivity.
    + reflexivity.
    + reflexivity.
    + discriminate.
Defined.

Section AppSettlementFacts.

Import Api0 App.

Variable base : string.

(** What [addWatchRequest] of services/api.ts resolves with when fetch
    fails or the response is not OK: an object with the one member
    [error]. *)
Lemma services_api_failure_value payload r :
  match r with
  | Rejected _ => True
  | Resolved response => ok response = false
  end ->
  exists v,
    run (fun _ => r) (Api0.addWatchRequest base payload)
    = Resolved (JObj [("error", v)]).
Proof.
  intros Hr. unfold Api0.addWatchRequest. simpl run.
  destruct r as [response | [e | v]]; simpl; eauto.
  rewrite Hr.
  destruct (get_error _) as [e | [e | v]]; simpl; eauto.
Qed.

Lemma promise_settled_error v st :
  exists title,
    promise_settled (Resolved (JObj [("error", v)])) st
    = (with_submitting false None st, [Toast ToastError title None]).
Proof.
  unfold promise_settled, promise_body. simpl.
  destruct (Error_message _) as [text | [e | other]]; simpl; eauto.
Qed.

(** A click that sends leaves the promise waiting; the settlement of its
    fetch then runs the callbacks of [toast.promise]. *)
Lemma app_settle_after_submit st req :
  submitting_while_waiting st ->
  In req (sent (snd (step base st ClickSubmit))) ->
  with_submitting false None (fst (step base st ClickSubmit)) = st
  /\ exists payload,
       forall r,
         step base (fst (step base st ClickSubmit)) (FetchSettled r)
         = promise_settled
             (run (fun _ => r) (Api0.addWatchRequest base payload))
             (fst (step base st ClickSubmit)).
Proof.
  intros Hflag Hreq. simpl in Hreq |- *.
  destruct (submit_button_disabled st) eqn:Hdisabled; [contradiction |].
  unfold submit_button_disabled in Hdisabled.
  apply orb_false_iff in Hdisabled as [Hdisabled _].
  apply orb_false_iff in Hdisabled as [Hfree _].
  red in Hflag. rewrite Hfree in Hflag.
  unfold handleWatchSubmit in Hreq |- *.
  destruct (_ || _); simpl in Hreq; [contradiction |].
  destruct (negb _); simpl in Hreq; [contradiction |].
  destruct (watchSection st) as [s |] eqn:Hs; simpl in Hreq; [| contradiction].
  destruct (_ || _); simpl in Hreq; [contradiction |].
  split.
  - destruct st as [? ? ? ? ? ? ? ? [k |]]; simpl in *;
      [discriminate | subst; reflexivity].
  - exists (JObj [("email", JStr (watchEmail st));
                  ("term_id", JStr (selectedTerm st));
                  ("course_code", JStr (selectedCourse st));
                  ("section_key", JStr (key s))]).
    intros r. reflexivity.
Qed.

(** What the user of the one-component App sees of the answer to a watch
    request. When fetch fails, or the response is not OK, an error toast
    appears and the component is in the state it had before the click, so
    that the request can be sent again; the toast shows the [error] text of
    the server when the body has one. On an OK response whose body has a
    [message] and no [error], the toast shows the message, the dialog is
    closed and the address cleared. *)
Theorem app_answer_shown : forall evs req,
  let st := state_after base evs in
  In req (sent (snd (step base st ClickSubmit))) ->
  let st1 := fst (step base st ClickSubmit) in
  (forall r,
      match r with
      | Rejected _ => True
      | Resolved response => ok response = false
      end ->
      exists title,
        step base st1 (FetchSettled r) = (st, [Toast ToastError title None]))
  /\ (forall response ms m,
         ok response = false ->
         body response = Json (JObj ms) ->
         member "error" ms = Some (JStr m) -> m <> "" ->
         step base st1 (FetchSettled (Resolved response))
         = (st, [Toast ToastError m None]))
  /\ (forall response ms m,
         ok response = true ->
         body response = Json (JObj ms) ->
         member "message" ms = Some (JStr m) -> m <> "" ->
         member "error" ms = None ->
         step base st1 (FetchSettled (Resolved response))
         = (setWatchEmail "" (with_watch (watchSection st) false st),
            [Toast ToastSuccess m None])).
Proof.
  intros evs req st Hreq st1.
  assert (Hinit : consistent initial) by (split; simpl; discriminate).
  pose proof (app_run_events_flag base evs initial Hinit eq_refl) as Hflag.
  change (submitting_while_waiting st) in Hflag.
  destruct (app_settle_after_submit st req Hflag Hreq)
    as (Hback & payload & Hsettle).
  fold st1 in Hback, Hsettle.
  split; [| split].
  - intros r Hr. rewrite Hsettle.
    destruct (services_api_failure_value payload r Hr) as (v & ->).
    destruct (promise_settled_error v st1) as (title & ->).
    rewrite Hback. eauto.
  - intros response ms m Hok Hbody Hm Hne. rewrite Hsettle.
    unfold Api0.addWatchRequest. simpl run. simpl mbind. unfold outcome_bind.
    rewrite Hok.
    unfold response_json, get_error. rewrite Hbody. simpl. rewrite Hm.
    unfold promise_settled. simpl.
    destruct m as [| c m]; [congruence |]. simpl.
    rewrite Hback. reflexivity.
  - intros response ms m Hok Hbody Hm Hne Herr. rewrite Hsettle.
    unfold Api0.addWatchRequest. simpl run. simpl mbind. unfold outcome_bind.
    rewrite Hok.
    unfold response_json. rewrite Hbody. simpl.
    unfold promise_settled, promise_body. simpl. rewrite Hm, Herr.
    destruct m as [| c m]; [congruence |]. simpl. rewrite Hm. simpl.
    f_equal.
    clear Hsettle Hreq Hflag. clearbody st1 st. subst st.
    destruct st1; reflexivity.
Qed.

End AppSettlementFacts.

(** A 409 with the message of the server, after a click on the submit
    button of the dialog. *)
Lemma app_answer_shown_witness :
  let full :=
    {| Api0.block_type := "LEC"; Api0.key := "1234"; Api0.open_seats := 0;
       Api0.section := "C01" |} in
  let evs :=
    [App.TermChange "3202510"; App.CourseSelect "COMPSCI 1JC3";
     App.DetailsFetched (Some [("LEC", [full])]); App.ClickWatch 0 0;
     App.TypeEmail "student@mcmaster.ca"] in
  let conflict :=
    {| status := 409; statusText := "CONFLICT";
       body := Json (JObj [("error", JStr "Already watching this section")]) |} in
  let st := App.state_after "https://api" evs in
  App.step "https://api" (fst (App.step "https://api" st App.ClickSubmit))
    (App.FetchSettled (Resolved conflict))
  = (st, [Toast ToastError "Already watching this section" None]).
Proof.
  intros full evs conflict st.
  destruct (app_answer_shown "https://api" evs
              (Api.POST_json "https://api/watch"
                 (stringify
                    (JObj [("email", JStr "student@mcmaster.ca");
                           ("term_id", JStr "3202510");
                           ("course_code", JStr "COMPSCI 1JC3");
                           ("section_key", JStr "1234")]))))
    as (_ & Hserver & _).
  - left. reflexivity.
  - apply (Hserver conflict
             [("error", JStr "Already watching this section")]
             "Already watching this section").
    + reflexivity.
    + reflexivity.
    + reflexivity.
    + discriminate.
Defined.

(** ** The list of courses: scrolling and searching *)

Section ScrollFacts.

Import CourseSelector.

Lemma displayed_unfiltered st :
  JsString.trim (courseSearchQuery st) = "" ->
  (0 <= visibleCourseCount st)%Z ->
  displayed st
  = take (Z.to_nat (Z.min (visibleCourseCount st)
                      (Z.of_nat (length (courses st)))))
      (courses st).
Proof.
  intros Hq Hcount. unfold displayed, filteredAndDisplayedCourses.
  rewrite Hq. simpl. apply slice0_prefix, Hcount.
Qed.

Lemma length_displayed_unfiltered st :
  JsString.trim (courseSearchQuery st) = "" ->
  (0 <= visibleCourseCount st)%Z ->
  Z.of_nat (length (displayed st))
  = Z.min (visibleCourseCount st) (Z.of_nat (length (courses st))).
Proof.
  intros Hq Hcount. rewrite displayed_unfiltered by assumption.
  rewrite length_take. lia.
Qed.

(** A scroll near the end of the list, with nothing typed. *)
Lemma scroll_near_bottom st target :
  courseSearchQuery st = "" -> near_bottom target ->
  let st' := step st (Scroll target) in
  courses st' = courses st
  /\ courseSearchQuery st' = ""
  /\ visibleCourseCount st'
     = (if (visibleCourseCount st <? Z.of_nat (length (courses st)))%Z
        then Z.min (visibleCourseCount st + 30) (Z.of_nat (length (courses st)))
        else visibleCourseCount st).
Proof.
  intros Hq Hnear. simpl. split; [reflexivity |]. split; [exact Hq |].
  unfold handleCourseScroll, LOAD_MORE_COUNT. rewrite Hq. simpl.
  unfold near_bottom in Hnear.
  destruct (Z.geb_spec (scrollTop target + clientHeight target)
              (scrollHeight target - 50)) as [_ | Hfar]; [| lia].
  reflexivity.
Qed.

Lemma scrolls_reach_the_end targets : forall st,
  courseSearchQuery st = "" ->
  Forall near_bottom targets ->
  (0 <= visibleCourseCount st)%Z ->
  (Z.of_nat (length (courses st))
   <= visibleCourseCount st + 30 * Z.of_nat (length targets))%Z ->
  let st' := run_events (map Scroll targets) st in
  courses st' = courses st
  /\ courseSearchQuery st' = ""
  /\ (Z.of_nat (length (courses st)) <= visibleCourseCount st')%Z.
Proof.
  induction targets as [| target targets IH]; intros st Hq Hnear Hcount Hlen.
  - simpl in *. repeat split; [exact Hq | lia].
  - apply Forall_cons in Hnear as [Hnear Hrest].
    destruct (scroll_near_bottom st target Hq Hnear) as (Hc & Hq1 & Hn).
    change (run_events (map Scroll (target :: targets)) st)
      with (run_events (map Scroll targets) (step st (Scroll target))).
    set (st1 := step st (Scroll target)) in *.
    assert (Hcount1 : (0 <= visibleCourseCount st1)%Z).
    { rewrite Hn. destruct (_ <? _)%Z; lia. }
    assert (Hlen1 : (Z.of_nat (length (courses st1))
                     <= visibleCourseCount st1
                        + 30 * Z.of_nat (length targets))%Z).
    { rewrite Hn, Hc. simpl length in Hlen.
      destruct (Z.ltb_spec (visibleCourseCount st)
                  (Z.of_nat (length (courses st)))); lia. }
    destruct (IH st1 Hq1 Hrest Hcount1 Hlen1) as (Hc' & Hq' & Hn').
    cbv zeta. rewrite Hc', Hc. rewrite Hc in Hn'.
    repeat split; assumption.
Qed.

(** Infinite scroll, with nothing typed in the search box. The hint to
    scroll on is shown exactly when courses are hidden; a scroll near the
    end of the list then shows up to 30 more courses, at least one; and
    enough such scrolls show every course and remove the hint. *)
Theorem infinite_scroll_shows_all : forall st,
  courseSearchQuery st = "" ->
  (0 <= visibleCourseCount st)%Z ->
  (can_load_more st = true
   <-> (length (displayed st) < length (courses st))%nat)
  /\ (forall target,
         near_bottom target -> can_load_more st = true ->
         let st' := step st (Scroll target) in
         displayed st'
         = take (Z.to_nat (Z.min (visibleCourseCount st + 30)
                             (Z.of_nat (length (courses st)))))
             (courses st)
         /\ (length (displayed st) < length (displayed st'))%nat)
  /\ (forall targets,
         Forall near_bottom targets ->
         (Z.of_nat (length (courses st))
          <= visibleCourseCount st + 30 * Z.of_nat (length targets))%Z ->
         let st' := run_events (map Scroll targets) st in
         displayed st' = courses st /\ can_load_more st' = false).
Proof.
  intros st Hq Hcount.
  assert (Htrim : JsString.trim (courseSearchQuery st) = "")
    by (rewrite Hq; reflexivity).
  pose proof (length_displayed_unfiltered st Htrim Hcount) as Hshown.
  assert (Hmore : can_load_more st
                  = (visibleCourseCount st <? Z.of_nat (length (courses st)))%Z).
  { unfold can_load_more, canLoadMoreCourses. rewrite Hq. reflexivity. }
  split; [| split].
  - rewrite Hmore. rewrite Z.ltb_lt. lia.
  - intros target Hnear Hcan st'.
    rewrite Hmore in Hcan. apply Z.ltb_lt in Hcan.
    destruct (scroll_near_bottom st target Hq Hnear) as (Hc & Hq1 & Hn).
    fold st' in Hc, Hq1, Hn.
    apply Z.ltb_lt in Hcan as Hlt. rewrite Hlt in Hn.
    assert (Htrim1 : JsString.trim (courseSearchQuery st') = "")
      by (rewrite Hq1; reflexivity).
    assert (Hcount1 : (0 <= visibleCourseCount st')%Z) by lia.
    pose proof (length_displayed_unfiltered st' Htrim1 Hcount1) as Hshown1.
    split.
    + rewrite displayed_unfiltered by assumption.
      rewrite Hn, Hc. f_equal. lia.
    + rewrite Hn, Hc in Hshown1. lia.
  - intros targets Hnear Hlen st'.
    destruct (scrolls_reach_the_end targets st Hq Hnear Hcount Hlen)
      as (Hc & Hq1 & Hn).
    fold st' in Hc, Hq1, Hn.
    split.
    + rewrite displayed_unfiltered; [| rewrite Hq1; reflexivity | lia].
      rewrite Hc. apply take_ge. lia.
    + unfold can_load_more, canLoadMoreCourses. rewrite Hq1, Hc. simpl.
      apply Z.ltb_ge. exact Hn.
Qed.

(** While the search box holds white space only, the list shows the first
    [visibleCourseCount] courses, as with an empty box; but the handler of
    the scroll takes the box for a search: the hint to scroll on is not
    shown and no scroll loads more courses. *)
Theorem blank_search_stops_scroll : forall st,
  courseSearchQuery st <> "" ->
  JsString.trim (courseSearchQuery st) = "" ->
  (0 <= visibleCourseCount st)%Z ->
  displayed st
  = take (Z.to_nat (Z.min (visibleCourseCount st)
                      (Z.of_nat (length (courses st)))))
      (courses st)
  /\ can_load_more st = false
  /\ forall target, step st (Scroll target) = st.
Proof.
  intros st Hne Htrim Hcount.
  assert (Htruthy : JsString.truthy (courseSearchQuery st) = true).
  { destruct (courseSearchQuery st); [congruence | reflexivity]. }
  split; [apply displayed_unfiltered; assumption |].
  split.
  - unfold can_load_more, canLoadMoreCourses. rewrite Htruthy. reflexivity.
  - intros target. simpl. unfold handleCourseScroll. rewrite Htruthy.
    destruct st; reflexivity.
Qed.

End ScrollFacts.

(** Seventy courses: the first thirty are shown, and two scrolls to the
    end of the list show them all. *)
Lemma infinite_scroll_shows_all_witness :
  let l := map (fun n : nat => pretty (Z.of_nat n)) (seq 0 70) in
  let st := CourseSelector.step CourseSelector.initial
              (CourseSelector.CoursesFetched l) in
  let bottom :=
    {| CourseSelector.scrollTop := 900; CourseSelector.clientHeight := 300;
       CourseSelector.scrollHeight := 1200 |} in
  length (CourseSelector.displayed st) = 30%nat
  /\ CourseSelector.displayed
       (CourseSelector.run_events
          (map CourseSelector.Scroll [bottom; bottom]) st)
     = l.
Proof.
  intros l st bottom. split; [reflexivity |].
  destruct (infinite_scroll_shows_all st eq_refl) as (_ & _ & Hall).
  - vm_compute. discriminate.
  - apply (Hall [bottom; bottom]).
    + repeat constructor; vm_compute; discriminate.
    + vm_compute. discriminate.
Defined.

(** A space in the search box of a list of seventy courses. *)
Lemma blank_search_stops_scroll_witness :
  let l := map (fun n : nat => pretty (Z.of_nat n)) (seq 0 70) in
  let st :=
    CourseSelector.run_events
      [CourseSelector.CoursesFetched l; CourseSelector.PopoverOpenChange true;
       CourseSelector.SearchInput " "]
      CourseSelector.initial in
  let bottom :=
    {| CourseSelector.scrollTop := 900; CourseSelector.clientHeight := 300;
       CourseSelector.scrollHeight := 1200 |} in
  length (CourseSelector.displayed st) = 30%nat
  /\ CourseSelector.can_load_more st = false
  /\ CourseSelector.step st (CourseSelector.Scroll bottom) = st.
Proof.
  intros l st bottom.
  destruct (blank_search_stops_scroll st) as (Hshown & Hhint & Hscroll).
  - discriminate.
  - reflexivity.
  - vm_compute. discriminate.
  - split; [reflexivity |]. split; [exact Hhint | apply Hscroll].
Defined.

Section SearchFacts.

Import CourseSelector.

Lemma prefix_spec (q s : string) :
  String.prefix q s = true <-> exists post, s = q ++ post.
Proof.
  revert s. induction q as [| c q IH]; intros s.
  - split; [intros _; exists s; reflexivity | intros _; destruct s; reflexivity].
  - destruct s as [| d s]; simpl.
    + split; [discriminate | intros (post & H); discriminate H].
    + destruct (Ascii.ascii_dec c d) as [<- | Hne].
      * rewrite IH. split; intros (post & H); exists post.
        -- rewrite append_cons. f_equal. exact H.
        -- rewrite append_cons in H. injection H as H. exact H.
      * split; [discriminate |]. intros (post & H).
        rewrite append_cons in H. injection H as H _. congruence.
Qed.

(** [includes] is the search for a contiguous substring. *)
Lemma includes_spec (s q : string) :
  JsString.includes s q = true <-> exists pre post, s = pre ++ q ++ post.
Proof.
  induction s as [| c s IH].
  - change (JsString.includes "" q) with (String.prefix q "" || false).
    rewrite orb_false_r, prefix_spec. split.
    + intros (post & H). exists "", post. exact H.
    + intros ([| d pre] & post & H); [exists post; exact H |].
      rewrite append_cons in H. discriminate H.
  - change (JsString.includes (String c s) q)
      with (String.prefix q (String c s) || JsString.includes s q).
    rewrite orb_true_iff, prefix_spec, IH. split.
    + intros [(post & H) | (pre & post & H)].
      * exists "", post. exact H.
      * exists (String c pre), post. rewrite append_cons. f_equal. exact H.
    + intros ([| d pre] & post & H).
      * left. exists post. exact H.
      * right. rewrite append_cons in H. injection H as _ H.
        exists pre, post. exact H.
Qed.

(** The search of the course list. With a query that is not blank, a
    course is listed exactly when it is one of the courses of the term and
    its code, in lower case, contains the trimmed query, in lower case, as
    a contiguous substring: the search ignores case and the white space
    around the query, and [visibleCourseCount] plays no part. *)
Theorem search_finds_substrings : forall courses query count course,
  JsString.trim query <> "" ->
  (In course (filteredAndDisplayedCourses courses query count)
   <-> In course courses
       /\ exists pre post,
            JsString.toLowerCase course
            = pre ++ JsString.toLowerCase (JsString.trim query) ++ post).
Proof.
  intros courses query count course Hne.
  unfold filteredAndDisplayedCourses.
  assert (Hq : JsString.truthy
                 (JsString.toLowerCase (JsString.trim query)) = true).
  { rewrite truthy_toLowerCase.
    destruct (JsString.trim query); [congruence | reflexivity]. }
  rewrite Hq, filter_In, includes_spec. reflexivity.
Qed.

End SearchFacts.

(** A query in lower case with spaces around it. *)
Lemma search_finds_substrings_witness :
  In "COMPSCI 1JC3"
    (CourseSelector.filteredAndDisplayedCourses
       ["MATH 1ZA3"; "COMPSCI 1JC3"; "COMPSCI 1MD3"] "  sci 1j " 30).
Proof.
  apply (search_finds_substrings
           ["MATH 1ZA3"; "COMPSCI 1JC3"; "COMPSCI 1MD3"] "  sci 1j " 30
           "COMPSCI 1JC3").
  - discriminate.
  - split.
    + right. left. reflexivity.
    + exists "comp", "c3". reflexivity.
Defined.

(** ** The term App.tsx starts with *)

Section DefaultTermFacts.

Import App.

(** [find] returns the first element that passes. *)
Lemma find_first {A} (f : A -> bool) (l : list A) x :
  List.find f l = Some x ->
  exists pre post,
    l = (pre ++ x :: post)%list /\ f x = true
    /\ Forall (fun y => f y = false) pre.
Proof.
  induction l as [| y l IH]; simpl; [discriminate |].
  destruct (f y) eqn:Hy.
  - intros [= ->]. exists [], l. repeat split; [exact Hy | constructor].
  - intros H. destruct (IH H) as (pre & post & -> & Hx & Hpre).
    exists (y :: pre), post. repeat split; [exact Hx |].
    constructor; assumption.
Qed.

Lemma find_by_name_None word ts :
  find_by_name word ts = None ->
  Forall
    (fun t =>
       JsString.includes (JsString.toLowerCase (Api.name t)) word = false)
    ts.
Proof.
  unfold find_by_name. intros H. apply Forall_forall. intros t Ht.
  apply list_elem_of_In in Ht.
  apply (find_none _ _ H t Ht).
Qed.

(** The term the one-component App selects after it fetched the terms.
    It selects none exactly when no term came. Otherwise it selects the id
    of one of the fetched terms; and when no id is empty, that is the id of
    the first term whose name contains winter, in any case of the letters;
    without such a term, of the first term whose name contains fall;
    without that too, of the first term. *)
Theorem default_term_prefers_winter : forall fetchedTerms,
  let named word (t : Api.Term) :=
    JsString.includes (JsString.toLowerCase (Api.name t)) word in
  let first_named word (t : Api.Term) :=
    exists pre post,
      fetchedTerms = (pre ++ t :: post)%list /\ named word t = true
      /\ Forall (fun y => named word y = false) pre in
  (defaultTermId fetchedTerms = None <-> fetchedTerms = [])
  /\ (forall d,
         defaultTermId fetchedTerms = Some d ->
         exists t, In t fetchedTerms /\ Api.id t = d)
  /\ (Forall (fun t => Api.id t <> "") fetchedTerms ->
      forall d,
        defaultTermId fetchedTerms = Some d ->
        exists t,
          Api.id t = d
          /\ (first_named "winter" t
              \/ (Forall (fun y => named "winter" y = false) fetchedTerms
                  /\ first_named "fall" t)
              \/ (Forall (fun y => named "winter" y = false) fetchedTerms
                  /\ Forall (fun y => named "fall" y = false) fetchedTerms
                  /\ fetchedTerms !! 0%nat = Some t))).
Proof.
  intros ts named first_named.
  destruct ts as [| first rest].
  { split; [split; reflexivity |]. split; intros; discriminate. }
  assert (Hdefault :
            defaultTermId (first :: rest)
            = Some (id_or (find_by_name "winter" (first :: rest))
                      (id_or (find_by_name "fall" (first :: rest))
                         (Api.id first)))) by reflexivity.
  rewrite Hdefault. clear Hdefault.
  split; [split; discriminate |].
  split.
  - intros d Hd. apply (inj Some) in Hd. subst d.
    destruct (find_by_name "winter" (first :: rest)) as [w |] eqn:Hw.
    + unfold id_or at 1. destruct (JsString.truthy (Api.id w)) eqn:Hwid.
      * exists w. split; [| reflexivity].
        apply (find_some _ _ Hw).
      * destruct (find_by_name "fall" (first :: rest)) as [f |] eqn:Hf.
        -- unfold id_or. destruct (JsString.truthy (Api.id f)).
           ++ exists f. split; [apply (find_some _ _ Hf) | reflexivity].
           ++ exists first. split; [left; reflexivity | reflexivity].
        -- exists first. split; [left; reflexivity | reflexivity].
    + unfold id_or at 1.
      destruct (find_by_name "fall" (first :: rest)) as [f |] eqn:Hf.
      * unfold id_or. destruct (JsString.truthy (Api.id f)).
        -- exists f. split; [apply (find_some _ _ Hf) | reflexivity].
        -- exists first. split; [left; reflexivity | reflexivity].
      * exists first. split; [left; reflexivity | reflexivity].
  - intros Hids d Hd. apply (inj Some) in Hd. subst d.
    assert (Hid : forall t, In t (first :: rest) ->
                            JsString.truthy (Api.id t) = true).
    { intros t Ht. rewrite Forall_forall in Hids.
      apply list_elem_of_In in Ht. specialize (Hids t Ht).
      destruct (Api.id t); [congruence | reflexivity]. }
    destruct (find_by_name "winter" (first :: rest)) as [w |] eqn:Hw.
    + exists w. unfold id_or at 1.
      rewrite (Hid w (proj1 (find_some _ _ Hw))).
      split; [reflexivity |]. left. apply find_first, Hw.
    + apply find_by_name_None in Hw. unfold id_or at 1.
      destruct (find_by_name "fall" (first :: rest)) as [f |] eqn:Hf.
      * exists f. unfold id_or.
        rewrite (Hid f (proj1 (find_some _ _ Hf))).
        split; [reflexivity |]. right. left.
        split; [exact Hw | apply find_first, Hf].
      * apply find_by_name_None in Hf.
        exists first. split; [reflexivity |]. right. right.
        split; [exact Hw |]. split; [exact Hf | reflexivity].
Qed.

End DefaultTermFacts.

(** ** No watch request without a term and a course *)

Section SelectionNeededFacts.

Variable base : string.

Lemma truthy_ne (s : string) : JsString.truthy s = true <-> s <> "".
Proof. destruct s; simpl; split; congruence. Qed.

Lemma sends_need_selection st ev req :
  Display.consistent st ->
  In req (sent (snd (Display.step base st ev))) ->
  Context.selectedTerm (Display.selection st) <> ""
  /\ Context.selectedCourse (Display.selection st) <> "".
Proof.
  intros Hst Hreq.
  destruct (step_sends base st ev req Hst Hreq)
    as (-> & Hvalid & Hfree & s & Hs & _).
  simpl in Hreq. unfold Display.handleSubmit in Hreq.
  rewrite Hvalid, Hfree, Hs in Hreq. simpl in Hreq.
  unfold Display.handleWatchSubmit in Hreq. rewrite Hs in Hreq.
  destruct (JsString.truthy (Context.selectedTerm (Display.selection st)))
    eqn:Hterm; simpl in Hreq; [| contradiction].
  destruct (JsString.truthy (Context.selectedCourse (Display.selection st)))
    eqn:Hcourse; simpl in Hreq; [| contradiction].
  split; apply truthy_ne; assumption.
Qed.


(** In every state CourseDetailsDisplay reaches, a watch request goes out
    only while a term and a course are selected. A change of the term
    clears the course: the card of sections disappears, and whatever
    happens next, the dialog included, sends nothing until a course is
    chosen. *)
Theorem no_watch_without_course : forall evs,
  let st := Display.state_after base evs in
  (forall ev req,
      In req (sent (snd (Display.step base st ev))) ->
      Context.selectedTerm (Display.selection st) <> ""
      /\ Context.selectedCourse (Display.selection st) <> "")
  /\ (forall termId,
         let st' := fst (Display.step base st (Display.SelectTerm termId)) in
         Display.render st' = Display.Nothing
         /\ (forall block row,
                Display.step base st' (Display.ClickWatch block row)
                = (st', []))
         /\ (forall ev, sent (snd (Display.step base st' ev)) = [])).
Proof.
  intros evs st.
  pose proof (state_after_consistent base evs) as Hst. fold st in Hst.
  split.
  - intros ev req. apply sends_need_selection, Hst.
  - intros termId st'.
    assert (Hrender : Display.render st' = Display.Nothing).
    { reflexivity. }
    split; [exact Hrender |]. split.
    + intros block row. unfold Display.step. rewrite Hrender. reflexivity.
    + intros ev.
      pose proof (step_consistent base st (Display.SelectTerm termId) Hst)
        as Hst'.
      fold st' in Hst'.
      destruct (sent (snd (Display.step base st' ev))) as [| req l] eqn:Hsent;
        [reflexivity |].
      destruct (sends_need_selection st' ev req Hst') as [_ Hcourse].
      * rewrite Hsent. left. reflexivity.
      * exfalso. apply Hcourse. reflexivity.
Qed.




End SelectionNeededFacts.

(** Details that arrive after a change of the term: the sections of the
    course that was selected come back with their buttons, a click opens the
    dialog, and the submit is answered with Missing Information. *)
Example App_late_details :
  let full :=
    {| Api0.block_type := "LEC"; Api0.key := "1234"; Api0.open_seats := 0;
       Api0.section := "C01" |} in
  let evs :=
    [App.TermChange "3202510"; App.CourseSelect "COMPSCI 1JC3";
     App.TermChange "3202520";
     App.DetailsFetched (Some [("LEC", [full])])] in
  let st := App.state_after "https://api" evs in
  App.selectedCourse st = ""
  /\ App.renderCourseDetails st
     = App.SectionsCard [("LEC", [App.render_row false full])]
  /\ App.watch_disabled (App.render_row false full) = false
  /\ snd (App.run_events "https://api"
            [App.ClickWatch 0 0; App.TypeEmail "student@mcmaster.ca";
             App.ClickSubmit] st)
     = [Toast ToastError "Missing Information"
          (Some "Cannot submit watch request. Course or section data is missing.")].
Proof. intros full evs st. repeat split. Qed.

(** ** The card of sections *)

Section CardFacts.

Import Api Context Sections Display.

Lemma row_tooltip_cases section pending :
  (isWatchDisabled section pending = false
   <-> row_tooltip section pending = "Watch this section")
  /\ (row_tooltip section pending = "Section is already open"
      <-> (0 < open_seats section)%Z)
  /\ (row_tooltip section pending = "Submitting watch request..."
      <-> (open_seats section <= 0)%Z /\ pending = true).
Proof.
  unfold isWatchDisabled, row_tooltip.
  destruct (Z.gtb_spec (open_seats section) 0) as [Hopen | Hfull];
    destruct pending; simpl;
    repeat split; intros; try discriminate; try lia; try tauto;
    try (destruct H; (lia || discriminate)).
Qed.

(** When CourseDetailsDisplay shows the card of sections, a course is
    selected and the card has a block for every block of the details and a
    row for every section, in their order. The tooltip of a row tells the
    state of its button: it invites to watch exactly when the button is
    enabled, says that the section is open exactly when seats are open, and
    that a request is being submitted exactly when the section is full and
    the mutation pending. *)
Theorem sections_card_shows_details : forall st blocks,
  render st = SectionsCard blocks ->
  JsString.truthy (selectedCourse (selection st)) = true
  /\ (exists details,
         data (query st) = Some details /\ details <> []
         /\ map (fun b => (fst b, map row_section (snd b))) blocks = details)
  /\ (forall blockType rows row,
         In (blockType, rows) blocks -> In row rows ->
         let s := row_section row in
         cell_section row = section s /\ cell_key row = key s
         /\ (watch_disabled row = false
             <-> tooltip row = "Watch this section")
         /\ (tooltip row = "Section is already open" <-> (0 < open_seats s)%Z)
         /\ (tooltip row = "Submitting watch request..."
             <-> (open_seats s <= 0)%Z /\ isPending st = true)).
Proof.
  intros st blocks Hrender. unfold render in Hrender.
  destruct (JsString.truthy (selectedCourse (selection st))) eqn:Hcourse.
  2: { repeat match type of Hrender with
              | (if ?c then _ else _) = _ =>
                  destruct c; try discriminate Hrender
              end. }
  repeat match type of Hrender with
         | (if ?c then _ else _) = _ =>
             destruct c eqn:?; try discriminate Hrender
         end.
  injection Hrender as <-.
  split; [reflexivity |].
  destruct (data (query st)) as [details |] eqn:Hdata;
    [| simpl in *; discriminate].
  split.
  - exists details. split; [reflexivity |].
    split; [destruct details; [simpl in *; discriminate | discriminate] |].
    simpl. rewrite map_map. simpl.
    rewrite <- (map_id details) at 2. apply map_ext.
    intros [blockType sections]. simpl. f_equal.
    unfold SectionBlock. rewrite map_map. simpl. apply map_id.
  - intros blockType rows row Hblock Hrow s. simpl in Hblock.
    apply in_map_iff in Hblock as ([bt sections] & [= <- <-] & _).
    unfold SectionBlock in Hrow.
    apply in_map_iff in Hrow as (section & <- & _).
    subst s. simpl.
    split; [reflexivity |]. split; [reflexivity |].
    apply row_tooltip_cases.
Qed.

End CardFacts.

(** A full and an open section of a course. *)
Lemma sections_card_shows_details_witness :
  let full :=
    {| Api.block_type := "LEC"; Api.key := "1234"; Api.open_seats := 0;
       Api.total_seats := 120; Api.section := "C01" |} in
  let open :=
    {| Api.block_type := "LEC"; Api.key := "1235"; Api.open_seats := 5;
       Api.total_seats := 120; Api.section := "C02" |} in
  let loaded :=
    {| Display.data := Some [("LEC", [full; open])];
       Display.isLoading := false; Display.isFetching := false;
       Display.isError := false; Display.error_text := "" |} in
  let st :=
    Display.state_after "https://api"
      [Display.SelectTerm "3202510"; Display.SelectCourse "COMPSCI 1JC3";
       Display.QueryUpdate loaded] in
  exists blocks,
    Display.render st = Display.SectionsCard blocks
    /\ map (fun b => (fst b, map Sections.row_section (snd b))) blocks
       = [("LEC", [full; open])].
Proof.
  intros full open loaded st.
  eexists. split; [reflexivity |].
  destruct (sections_card_shows_details st _ eq_refl)
    as (_ & (details & Hdata & _ & Hblocks) & _).
  rewrite Hblocks. injection Hdata as <-. reflexivity.
Defined.

(** ** The body of a watch request *)

Section BodyFacts.

Lemma read_quote_char c (s : string) :
  read_quote_body (quote_char c ++ s) = read_cons c (read_quote_body s).
Proof.
  destruct c as [[] [] [] [] [] [] [] []]; reflexivity.
Qed.

Lemma read_quote_body_spec (s rest : string) :
  read_quote_body (quote_body s ++ String dquote rest) = Some (s, rest).
Proof.
  induction s as [| c s IH]; [reflexivity |].
  change (quote_body (String c s)) with (quote_char c ++ quote_body s).
  rewrite append_assoc, read_quote_char, IH. reflexivity.
Qed.

(** A quoted string is read back, whatever follows it. *)
Lemma read_quoted_spec (s rest : string) :
  read_quoted (quote s ++ rest) = Some (s, rest).
Proof.
  unfold quote. rewrite append_assoc.
  change (read_quote_body (quote_body s ++ String dquote "" ++ rest)
          = Some (s, rest)).
  apply read_quote_body_spec.
Qed.

Lemma quote_inj_app (a b ra rb : string) :
  quote a ++ ra = quote b ++ rb -> a = b /\ ra = rb.
Proof.
  intros H. apply (f_equal read_quoted) in H.
  rewrite !read_quoted_spec in H. injection H as -> ->. split; reflexivity.
Qed.

Lemma stringify_payload email term_id course_code section_key :
  stringify
    (JObj [("email", JStr email); ("term_id", JStr term_id);
           ("course_code", JStr course_code);
           ("section_key", JStr section_key)])
  = "{" ++ quote "email" ++ ":" ++ quote email
      ++ "," ++ quote "term_id" ++ ":" ++ quote term_id
      ++ "," ++ quote "course_code" ++ ":" ++ quote course_code
      ++ "," ++ quote "section_key" ++ ":" ++ quote section_key ++ "}".
Proof. simpl. repeat rewrite append_assoc. reflexivity. Qed.

(** The body of a watch request determines its four fields: two payloads
    give the same request exactly when they agree on the address, the
    term, the course and the section key. No address or course code,
    whatever quotes, backslashes or control characters it holds, makes the
    body read as another payload. *)
Theorem watch_request_body_determines_payload :
  forall (base : string) (net : Request -> outcome Response)
         email term_id course_code section_key
         email' term_id' course_code' section_key',
    let payload :=
      JObj [("email", JStr email); ("term_id", JStr term_id);
            ("course_code", JStr course_code);
            ("section_key", JStr section_key)] in
    let payload' :=
      JObj [("email", JStr email'); ("term_id", JStr term_id');
            ("course_code", JStr course_code');
            ("section_key", JStr section_key')] in
    issued net (Api.addWatchRequest base payload)
    = issued net (Api.addWatchRequest base payload')
    <-> email = email' /\ term_id = term_id'
        /\ course_code = course_code' /\ section_key = section_key'.
Proof.
  intros base net e t c k e' t' c' k' payload payload'. split.
  - intros Hissued.
    assert (H : Some (stringify payload) = Some (stringify payload')).
    { exact (f_equal
               (fun l => match l with
                         | r :: _ => request_body r
                         | [] => None
                         end) Hissued). }
    apply (inj Some) in H. subst payload payload'.
    rewrite !stringify_payload in H.
    apply append_inj_l in H.
    apply quote_inj_app in H as [_ H]. apply append_inj_l in H.
    apply quote_inj_app in H as [-> H]. apply append_inj_l in H.
    apply quote_inj_app in H as [_ H]. apply append_inj_l in H.
    apply quote_inj_app in H as [-> H]. apply append_inj_l in H.
    apply quote_inj_app in H as [_ H]. apply append_inj_l in H.
    apply quote_inj_app in H as [-> H]. apply append_inj_l in H.
    apply quote_inj_app in H as [_ H]. apply append_inj_l in H.
    apply quote_inj_app in H as [-> _].
    repeat split.
  - intros (-> & -> & -> & ->). reflexivity.
Qed.

End BodyFacts.

(** ** How addWatchRequest fails *)

Section FailureFacts.

Variable base : string.

(** Whatever fetch does, [addWatchRequest] asks once. The revision with
    [ApiError] rejects with instances of [Error] only, of which the caller
    can show the message: what fetch throws that is no [Error] is replaced
    by one. The revision before it never rejects: every failure becomes a
    value. *)
Theorem addWatchRequest_failures :
  forall (net : Request -> outcome Response) payload,
    (forall t,
        run net (Api.addWatchRequest base payload) = Rejected t ->
        exists e, t = ThrowError e)
    /\ (forall v,
           net (Api.POST_json (base ++ "/watch") (stringify payload))
           = Rejected (ThrowOther v) ->
           run net (Api.addWatchRequest base payload)
           = Rejected
               (ThrowError
                  (JsError "An unknown error occurred during the watch request.")))
    /\ (exists v, run net (Api0.addWatchRequest base payload) = Resolved v)
    /\ issued net (Api.addWatchRequest base payload)
       = [Api.POST_json (base ++ "/watch") (stringify payload)]
    /\ issued net (Api0.addWatchRequest base payload)
       = [Api.POST_json (base ++ "/watch") (stringify payload)].
Proof.
  intros net payload.
  split; [| split; [| split; [| split; reflexivity]]].
  - unfold Api.addWatchRequest. simpl run.
    destruct (net _) as [response | [e | v]]; simpl;
      [destruct (ok response); simpl;
       [unfold response_json; destruct (body response) as [j | m]; simpl
       | destruct (get_error _) as [e | [e | v]]; simpl;
         [destruct (Error_message _) as [message | [e' | v]]; simpl | |]]
      | |];
      intros t H; first [discriminate H | injection H as <-; eauto].
  - intros v Hnet. unfold Api.addWatchRequest. simpl run. rewrite Hnet.
    reflexivity.
  - unfold Api0.addWatchRequest. simpl run.
    destruct (net _) as [response | [e | v]]; simpl;
      [destruct (ok response); simpl;
       [unfold response_json; destruct (body response) as [j | m]; simpl
       | destruct (get_error _) as [e | [e | v]]; simpl] | |];
      eexists; reflexivity.
Qed.

End FailureFacts.

(** ** The queries follow the selection *)

Section QueryFacts.

Import Context Hooks.

Variable base : string.

(** The queries of the client after any calls of the setters of the
    context. The course list is asked for exactly when a term is selected,
    the details exactly when a term and a course are selected, each with
    one GET for the selection at hand; a course whose details are asked
    for was chosen under the term that is selected now; and after
    [setSelectedTerm] no details are asked for until a course is chosen in
    the list, upon which they are asked for that course in that term. *)
Theorem queries_follow_selection : forall cs net,
  let sel := run_calls cs initial in
  (useCourses base (selectedTerm sel) <> None <-> selectedTerm sel <> "")
  /\ (forall m,
         useCourses base (selectedTerm sel) = Some m ->
         issued net m
         = [Api.GET (base ++ "/terms/" ++ selectedTerm sel ++ "/courses")])
  /\ (useCourseDetails base (selectedTerm sel) (selectedCourse sel) <> None
      <-> selectedTerm sel <> "" /\ selectedCourse sel <> "")
  /\ (forall m,
         useCourseDetails base (selectedTerm sel) (selectedCourse sel) = Some m ->
         issued net m
         = [Api.GET (base ++ "/terms/" ++ selectedTerm sel ++ "/courses/"
                       ++ encodeURIComponent (selectedCourse sel))]
         /\ course_chosen_under (traced_calls cs traced_initial)
            = selectedTerm sel)
  /\ (forall termId,
         let sel' := setSelectedTerm termId sel in
         useCourseDetails base (selectedTerm sel') (selectedCourse sel') = None
         /\ forall courseCode st,
              termId <> "" -> courseCode <> "" ->
              let sel'' :=
                fst (CourseSelector.handleCourseSelectInternal courseCode
                       sel' st) in
              useCourseDetails base (selectedTerm sel'') (selectedCourse sel'')
              = Some (Api.getCourseDetails base termId courseCode)).
Proof.
  intros cs net sel.
  unfold useCourses, useCourseDetails.
  split; [| split; [| split; [| split]]].
  - destruct (selectedTerm sel); simpl; split; congruence.
  - intros m. destruct (JsString.truthy (selectedTerm sel)); [| discriminate].
    intros [= <-]. reflexivity.
  - destruct (selectedTerm sel); destruct (selectedCourse sel); simpl;
      intuition congruence.
  - intros m.
    destruct (JsString.truthy (selectedTerm sel)); [| discriminate].
    destruct (JsString.truthy (selectedCourse sel)) eqn:Hcourse;
      [| discriminate].
    intros [= <-]. split; [reflexivity |].
    pose proof (traced_calls_current cs traced_initial) as Hcur.
    simpl in Hcur. fold sel in Hcur.
    assert (Hinit : course_under_current_term traced_initial).
    { intros Hne. exfalso. apply Hne. reflexivity. }
    pose proof (traced_calls_keep cs traced_initial Hinit) as Hkeep.
    unfold course_under_current_term in Hkeep. rewrite Hcur in Hkeep.
    apply Hkeep. apply truthy_ne, Hcourse.
  - intros termId. split.
    + simpl. rewrite andb_false_r. reflexivity.
    + intros courseCode st Hterm Hcourse.
      assert (Hsel : fst (CourseSelector.handleCourseSelectInternal courseCode
                            (setSelectedTerm termId sel) st)
                     = {| selectedTerm := termId;
                          selectedCourse := courseCode |}).
      { unfold CourseSelector.handleCourseSelectInternal. simpl.
        destruct (String.eqb_spec courseCode ""); [contradiction |].
        reflexivity. }
      rewrite Hsel. simpl.
      apply truthy_ne in Hterm, Hcourse. rewrite Hterm, Hcourse. reflexivity.
Qed.

End QueryFacts.
